(** * Breadth-first simulation of a nondeterministic Turing machine

    A shallow embedding of the two scripts of the repository,
    [Tracing_PabloOlivaQuintana.py] (module [Eager]) and [FinalTracing.py]
    (module [Exhaustive]).  Both share the [Configuration] class and the body
    of the loop over the transitions; they differ in what a rejecting
    configuration does, in what [simulate_ntm] hands back and in the
    nondeterminism metric.

    Python strings are [string]; Python integers are [Z]; the deque and the
    list [explored] are lists (the deque is only ever popped on the left and
    appended on the right); an [IndexError] is an explicit outcome. *)

From Stdlib Require Import ZArith QArith String Ascii List Bool Lia DecimalString.
From stdpp Require Import base list strings gmap.

Local Open Scope string_scope.
Local Open Scope list_scope.

(** ** Python string primitives used by the scripts *)

Module Py.

(** [s[1:]] *)
Definition tail (s : string) : string :=
  match s with
  | EmptyString => EmptyString
  | String _ s' => s'
  end.

(** [s[:-1]] *)
Fixpoint init (s : string) : string :=
  match s with
  | EmptyString => EmptyString
  | String _ EmptyString => EmptyString
  | String c s' => String c (init s')
  end.

(** [s[-1]]: a one-character string, [None] standing for [IndexError] *)
Fixpoint last (s : string) : option string :=
  match s with
  | EmptyString => None
  | String c EmptyString => Some (String c EmptyString)
  | String _ s' => last s'
  end.

(** [s or "_"] *)
Definition or_blank (s : string) : string :=
  match s with
  | EmptyString => "_"
  | _ => s
  end.

(** [s[0]] on a string the caller knows to be non-empty; the scripts only
    index after [or "_"] or under the guard [if config.right]. *)
Definition first (s : string) : string :=
  match s with
  | EmptyString => EmptyString
  | String c _ => String c EmptyString
  end.

(** [f"{n}"] for an integer *)
Definition str (n : Z) : string := NilZero.string_of_int (Z.to_int n).

End Py.

(** ** The machine dictionary built by [parse_ntm_file] *)

Record Transition := mkTransition {
  current_state : string;
  input_symbol : string;
  next_state : string;
  write_symbol : string;
  move_direction : string
}.

Record Machine := mkMachine {
  name : string;
  states : list string;
  input_alphabet : list string;
  tape_alphabet : list string;
  start_state : string;
  accept_state : string;
  reject_state : string;
  transitions : list Transition
}.

(** ** [class Configuration] *)

Record Configuration := mkConfiguration {
  left : string;
  state : string;
  right : string
}.

(** ** The body of [for transition in ntm["transitions"]] *)

(** The symbol read by the head: [(config.right or "_")[0]]. *)
Definition head_symbol (config : Configuration) : string :=
  Py.first (Py.or_blank (right config)).

(** The guard of the [if] inside the loop over the transitions. *)
Definition matches (config : Configuration) (transition : Transition) : bool :=
  String.eqb (state config) (current_state transition)
  && String.eqb (head_symbol config) (input_symbol transition).

(** [config.left + (config.right[0] if config.right else "_")] *)
Definition new_left (config : Configuration) : string :=
  left config +:+ (match right config with
                   | EmptyString => "_"
                   | _ => Py.first (right config)
                   end).

(** [(config.right[1:] if len(config.right) > 1 else "") + "_"] *)
Definition new_right (config : Configuration) : string :=
  (if (1 <? String.length (right config))%nat
   then Py.tail (right config) else "") +:+ "_".

(** The configuration appended to the queue for a matching transition;
    [None] when [new_left[-1]] raises. *)
Definition successor (config : Configuration) (transition : Transition)
  : option Configuration :=
  let nl := new_left config in
  let ns := next_state transition in
  let nr := new_right config in
  if String.eqb (move_direction transition) "L" then
    match Py.last nl with
    | Some c => Some (mkConfiguration (Py.init nl) ns (c +:+ nr))
    | None => None
    end
  else Some (mkConfiguration nl ns nr).

(** The loop over the transitions for one dequeued configuration: every
    matching transition appends its successor to the right of the queue. *)
Fixpoint for_transitions (ts : list Transition) (config : Configuration)
    (queue : list Configuration) : option (list Configuration) :=
  match ts with
  | [] => Some queue
  | transition :: ts' =>
      if matches config transition then
        match successor config transition with
        | Some c => for_transitions ts' config (queue ++ [c])
        | None => None
        end
      else for_transitions ts' config queue
  end.

(** The starting configuration, [Configuration("", ntm["start_state"], input_string)]. *)
Definition initial (ntm : Machine) (input_string : string) : Configuration :=
  mkConfiguration "" (start_state ntm) input_string.

(** Number of matching transitions of a configuration. *)
Definition out_degree (ntm : Machine) (config : Configuration) : nat :=
  length (List.filter (matches config) (transitions ntm)).

(** The successor as a total function: what [successor] returns, with the
    pop of a left move already carried out. *)
Definition step (config : Configuration) (transition : Transition)
  : Configuration :=
  if String.eqb (move_direction transition) "L"
  then mkConfiguration (left config) (next_state transition)
         (head_symbol config +:+ new_right config)
  else mkConfiguration (new_left config) (next_state transition)
         (new_right config).

(** All successors of a configuration, in the order of the transition list. *)
Definition successors (ntm : Machine) (config : Configuration)
  : list Configuration :=
  map (step config) (List.filter (matches config) (transitions ntm)).

(** ** [Configuration.__repr__] and the reports *)

(** [f"({self.left}, {self.state}, {self.right})"] *)
Definition repr (config : Configuration) : string :=
  "(" +:+ left config +:+ ", " +:+ state config +:+ ", " +:+ right config
  +:+ ")".

(** The line feed. *)
Definition nl : string := String (ascii_of_nat 10) "".

(** [f"Step {i + 1}: {config}"] for the [i]-th element of [enumerate]. *)
Definition step_line (i : nat) (config : Configuration) : string :=
  "Step " +:+ Py.str (Z.of_nat i + 1) +:+ ": " +:+ repr config.

(** The step lines of [for i, config in enumerate(explored)], counting
    from [i]. *)
Fixpoint step_lines (i : nat) (explored : list Configuration) : list string :=
  match explored with
  | [] => []
  | config :: rest => step_line i config :: step_lines (S i) rest
  end.

(** What a sequence of [f.write] calls leaves in the file. *)
Definition written (chunks : list string) : string :=
  fold_right String.append "" chunks.

(** What a sequence of [print] calls sends to the console. *)
Definition printed_text (lines : list string) : string :=
  fold_right (fun line rest => line +:+ nl +:+ rest) "" lines.

(** ** [Tracing_PabloOlivaQuintana.py]: both terminal states stop the run *)

Module Eager.

(** What one pass of [for _ in range(current_level)] leaves behind. *)
Inductive level_result :=
| Next (queue explored : list Configuration)
| Return (explored : list Configuration) (result : string)
| IndexError.

Fixpoint for_range (ntm : Machine) (n : nat)
    (queue explored : list Configuration) : level_result :=
  match n with
  | O => Next queue explored
  | S n' =>
      match queue with
      | [] => IndexError
      | config :: queue' =>
          let explored' := explored ++ [config] in
          if String.eqb (state config) (accept_state ntm) then
            Return explored' "accept"
          else if String.eqb (state config) (reject_state ntm) then
            Return explored' "reject"
          else
            match for_transitions (transitions ntm) config queue' with
            | Some queue'' => for_range ntm n' queue'' explored'
            | None => IndexError
            end
      end
  end.

(** How the [while] loop is left. *)
Inductive exit :=
| Halted (explored : list Configuration) (result : string) (steps : Z)
| Stopped (queue explored : list Configuration) (steps : Z)
| Raised
| OutOfFuel.

(** [while queue and steps < max_depth]; [fuel] bounds the iterations. *)
Fixpoint while_loop (ntm : Machine) (max_depth : Z) (fuel : nat)
    (queue : list Configuration) (steps : Z)
    (explored : list Configuration) : exit :=
  if negb (Nat.eqb (length queue) 0) && (steps <? max_depth)%Z then
    match fuel with
    | O => OutOfFuel
    | S fuel' =>
        let current_level := length queue in
        match for_range ntm current_level queue explored with
        | Next queue' explored' =>
            while_loop ntm max_depth fuel' queue' (steps + 1)%Z explored'
        | Return explored' result => Halted explored' result steps
        | IndexError => Raised
        end
    end
  else Stopped queue explored steps.

(** What [simulate_ntm] hands back: the triple it returns. *)
Inductive outcome :=
| Returned (explored : list Configuration) (result : string) (steps : Z)
| Error
| Diverged.

Definition simulate_ntm (ntm : Machine) (input_string : string)
    (max_depth : Z) : outcome :=
  match while_loop ntm max_depth (Z.to_nat max_depth)
          [initial ntm input_string] 0%Z [] with
  | Halted explored result steps => Returned explored result steps
  | Stopped _ explored steps => Returned explored "timed out" steps
  | Raised => Error
  | OutOfFuel => Diverged
  end.

(** [len(explored) / depth if depth > 0 else 0]; the quotient of two
    integers is kept as the exact rational that Python rounds to a float. *)
Definition calculate_nondeterminism (explored : list Configuration)
    (depth : Z) : Q :=
  if (depth >? 0)%Z
  then Qdiv (inject_Z (Z.of_nat (length explored))) (inject_Z depth)
  else 0%Q.

(** A configuration at which the run stops. *)
Definition is_terminal (ntm : Machine) (config : Configuration) : bool :=
  String.eqb (state config) (accept_state ntm)
  || String.eqb (state config) (reject_state ntm).

(** The word reported for a terminal configuration: accept is tested first. *)
Definition verdict (ntm : Machine) (config : Configuration) : string :=
  if String.eqb (state config) (accept_state ntm) then "accept" else "reject".

(** The state of the loop after [k] levels that ran through, or the level
    result that ended the run before. *)
Fixpoint after_levels (ntm : Machine) (k : nat)
    (queue explored : list Configuration) : level_result :=
  match k with
  | O => Next queue explored
  | S k' =>
      match for_range ntm (length queue) queue explored with
      | Next queue' explored' => after_levels ntm k' queue' explored'
      | r => r
      end
  end.

(** The trace inside an outcome. *)
Definition trace (o : outcome) : list Configuration :=
  match o with
  | Returned explored _ _ => explored
  | _ => []
  end.

(** The list [explored] as a pass over a level or the loop leaves it. *)
Definition level_trace (r : level_result) : list Configuration :=
  match r with
  | Next _ explored => explored
  | Return explored _ => explored
  | IndexError => []
  end.

Definition exit_trace (x : exit) : list Configuration :=
  match x with
  | Halted explored _ _ => explored
  | Stopped _ explored _ => explored
  | _ => []
  end.

(** [output_results]: the text written to the file and the text printed.
    [fmt] stands for the formatting of the metric by [:.2f], which works on
    the float. *)
Definition output_results (fmt : Q -> string) (ntm : Machine)
    (input_string : string) (explored : list Configuration)
    (result : string) (depth : Z) : string * string :=
  let nondeterminism := calculate_nondeterminism explored depth in
  let file :=
    written
      (["--- Simulation Summary ---" +:+ nl;
        "Machine: " +:+ name ntm +:+ nl;
        "Input String: " +:+ input_string +:+ nl;
        "Result: " +:+ result +:+ nl;
        "Depth: " +:+ Py.str depth +:+ nl;
        "Configurations Explored: "
          +:+ Py.str (Z.of_nat (length explored)) +:+ nl;
        "Average Non-Determinism: " +:+ fmt nondeterminism +:+ nl;
        nl +:+ "Detailed Steps:" +:+ nl]
       ++ map (fun line => line +:+ nl) (step_lines 0 explored)) in
  let console :=
    printed_text
      (["--- Simulation Summary ---";
        "Machine: " +:+ name ntm;
        "Input String: " +:+ input_string;
        "Result: " +:+ result;
        "Depth: " +:+ Py.str depth;
        "Configurations Explored: " +:+ Py.str (Z.of_nat (length explored));
        "Average Non-Determinism: " +:+ fmt nondeterminism;
        nl +:+ "Detailed Steps:"]
       ++ step_lines 0 explored) in
  (file, console).

End Eager.

(** ** [FinalTracing.py]: a rejecting configuration only closes its branch *)

Module Exhaustive.

Inductive level_result :=
| Next (queue explored : list Configuration)
| Return (explored : list Configuration)
| IndexError.

Fixpoint for_range (ntm : Machine) (n : nat)
    (queue explored : list Configuration) : level_result :=
  match n with
  | O => Next queue explored
  | S n' =>
      match queue with
      | [] => IndexError
      | config :: queue' =>
          let explored' := explored ++ [config] in
          if String.eqb (state config) (accept_state ntm) then
            Return explored'
          else if String.eqb (state config) (reject_state ntm) then
            for_range ntm n' queue' explored'
          else
            match for_transitions (transitions ntm) config queue' with
            | Some queue'' => for_range ntm n' queue'' explored'
            | None => IndexError
            end
      end
  end.

Inductive exit :=
| Accepted (explored : list Configuration) (steps : Z)
| Stopped (queue explored : list Configuration) (steps : Z)
| Raised
| OutOfFuel.

Fixpoint while_loop (ntm : Machine) (max_depth : Z) (fuel : nat)
    (queue : list Configuration) (steps : Z)
    (explored : list Configuration) : exit :=
  if negb (Nat.eqb (length queue) 0) && (steps <? max_depth)%Z then
    match fuel with
    | O => OutOfFuel
    | S fuel' =>
        let current_level := length queue in
        match for_range ntm current_level queue explored with
        | Next queue' explored' =>
            while_loop ntm max_depth fuel' queue' (steps + 1)%Z explored'
        | Return explored' => Accepted explored' steps
        | IndexError => Raised
        end
    end
  else Stopped queue explored steps.

(** What a call leaves behind: the line it printed and the list it returns. *)
Inductive outcome :=
| Returned (printed : string) (explored : list Configuration)
| Error
| Diverged.

Definition accepted_message (steps : Z) : string :=
  "String accepted in " +:+ Py.str steps +:+ " steps!".

Definition timeout_message (steps : Z) : string :=
  "Execution stopped after " +:+ Py.str steps +:+ " steps (max depth reached).".

Definition simulate_ntm (ntm : Machine) (input_string : string)
    (max_depth : Z) : outcome :=
  match while_loop ntm max_depth (Z.to_nat max_depth)
          [initial ntm input_string] 0%Z [] with
  | Accepted explored steps => Returned (accepted_message steps) explored
  | Stopped _ explored steps => Returned (timeout_message steps) explored
  | Raised => Error
  | OutOfFuel => Diverged
  end.

(** [set(config.state for config in explored)] *)
Definition state_set (explored : list Configuration) : gset string :=
  list_to_set (map state explored).

(** [len(explored) / len(set(...))]; [None] stands for [ZeroDivisionError],
    and the quotient is the exact rational that Python rounds to a float. *)
Definition calculate_nondeterminism (explored : list Configuration)
  : option Q :=
  let d := Z.of_nat (size (state_set explored)) in
  if (d =? 0)%Z then None
  else Some (Qdiv (inject_Z (Z.of_nat (length explored))) (inject_Z d)).

Definition is_accept (ntm : Machine) (config : Configuration) : bool :=
  String.eqb (state config) (accept_state ntm).

(** What a dequeued, non-accepting configuration adds to the queue: nothing
    when it rejects, its successors otherwise. *)
Definition expand (ntm : Machine) (config : Configuration)
  : list Configuration :=
  if String.eqb (state config) (reject_state ntm) then []
  else successors ntm config.

(** Number of successors a dequeued configuration contributes. *)
Definition expanded_degree (ntm : Machine) (config : Configuration) : nat :=
  if String.eqb (state config) (reject_state ntm) then 0
  else out_degree ntm config.

Fixpoint after_levels (ntm : Machine) (k : nat)
    (queue explored : list Configuration) : level_result :=
  match k with
  | O => Next queue explored
  | S k' =>
      match for_range ntm (length queue) queue explored with
      | Next queue' explored' => after_levels ntm k' queue' explored'
      | r => r
      end
  end.

(** Number of distinct states in a trace, counted on the list itself. *)
Definition distinct_states (explored : list Configuration) : nat :=
  length (remove_dups (map state explored)).

(** The trace inside an outcome. *)
Definition trace (o : outcome) : list Configuration :=
  match o with
  | Returned _ explored => explored
  | _ => []
  end.

(** The list [explored] as a pass over a level or the loop leaves it. *)
Definition level_trace (r : level_result) : list Configuration :=
  match r with
  | Next _ explored => explored
  | Return explored => explored
  | IndexError => []
  end.

Definition exit_trace (x : exit) : list Configuration :=
  match x with
  | Accepted explored _ => explored
  | Stopped _ explored _ => explored
  | _ => []
  end.

(** What [output_results] does: the lines it printed, and whether it ended
    normally or by the [ZeroDivisionError] of the metric. *)
Inductive report :=
| Printed (lines : list string)
| ZeroDivisionError (lines : list string).

(** [fmt] stands for the formatting of the metric by [:.2f], which works on
    the float. *)
Definition output_results (fmt : Q -> string)
    (explored : list Configuration) (ntm : Machine) : report :=
  let first_lines :=
    ["NTM: " +:+ name ntm;
     "Total configurations explored: "
       +:+ Py.str (Z.of_nat (length explored))] in
  match calculate_nondeterminism explored with
  | None => ZeroDivisionError first_lines
  | Some nondeterminism =>
      Printed (first_lines
               ++ ["Degree of Nondeterminism: " +:+ fmt nondeterminism]
               ++ step_lines 0 explored)
  end.

End Exhaustive.

(** ** Vocabulary of the statements *)

(** The characters of a tape segment. *)
Definition symbols (s : string) : list ascii := list_ascii_of_string s.

(** A machine that loops in its start state for ever on [input_string]:
    the start state is neither terminal state, every transition out of it
    leads back to it, and it has a transition for the blank and for every
    symbol of the input. *)
Definition self_loop (ntm : Machine) (input_string : string) : Prop :=
  start_state ntm <> accept_state ntm /\
  start_state ntm <> reject_state ntm /\
  (forall t, In t (transitions ntm) ->
             current_state t = start_state ntm ->
             next_state t = start_state ntm) /\
  (forall a, a = "_"%char \/ In a (symbols input_string) ->
             exists t, In t (transitions ntm) /\
                       current_state t = start_state ntm /\
                       input_symbol t = String a "").

(** What every configuration of such a run looks like: it is in the start
    state and its [right] holds only blanks and symbols of the input. *)
Definition looping (ntm : Machine) (input_string : string)
    (config : Configuration) : Prop :=
  state config = start_state ntm /\
  Forall (fun a => a = "_"%char \/ In a (symbols input_string))
    (symbols (right config)).

(** A transition with its direction replaced. *)
Definition with_direction (t : Transition) (d : string) : Transition :=
  mkTransition (current_state t) (input_symbol t) (next_state t)
    (write_symbol t) d.

(** Sum of a list of naturals. *)
Definition total (l : list nat) : nat := fold_right Nat.add 0 l.

(** ** [parse_ntm_file], from the rows read by [csv.reader]

    Opening the file and splitting it into rows is the [csv] library's; the
    model starts at [lines = list(reader)].  A row is a list of strings,
    [None] stands for the [IndexError] of a missing row or field. *)

(** The dictionary appended for one row of [lines[7:]]. *)
Definition parse_transition (line : list string) : option Transition :=
  cs ← line !! 0;
  sym ← line !! 1;
  ns ← line !! 2;
  ws ← line !! 3;
  md ← line !! 4;
  Some (mkTransition cs sym ns ws md).

Definition parse_ntm_file (lines : list (list string)) : option Machine :=
  nm ← lines !! 0 ≫= (.!! 0);
  sts ← lines !! 1;
  ia ← lines !! 2;
  ta ← lines !! 3;
  ss ← lines !! 4 ≫= (.!! 0);
  acc ← lines !! 5 ≫= (.!! 0);
  rej ← lines !! 6 ≫= (.!! 0);
  ts ← mapM parse_transition (drop 7 lines);
  Some (mkMachine nm sts ia ta ss acc rej ts).

(** The rows of a file that describes a machine, in the layout read above. *)
Definition transition_row (t : Transition) : list string :=
  [current_state t; input_symbol t; next_state t; write_symbol t;
   move_direction t].

Definition machine_rows (m : Machine) : list (list string) :=
  [name m] :: states m :: input_alphabet m :: tape_alphabet m ::
  [start_state m] :: [accept_state m] :: [reject_state m] ::
  map transition_row (transitions m).

(** ** Vocabulary of the further properties *)

(** The configurations [n] transitions away from [c0], in the order a
    breadth-first search meets them. *)
Fixpoint frontier (ntm : Machine) (c0 : Configuration) (n : nat)
  : list Configuration :=
  match n with
  | O => [c0]
  | S n' => flat_map (successors ntm) (frontier ntm c0 n')
  end.

(** The frontiers [0] to [n - 1], one after the other. *)
Fixpoint levels_before (ntm : Machine) (c0 : Configuration) (n : nat)
  : list Configuration :=
  match n with
  | O => []
  | S n' => levels_before ntm c0 n' ++ frontier ntm c0 n'
  end.

(** [reach_in ntm c0 n c]: the machine gets from [c0] to [c] by [n]
    transitions of its list, each one matching where it is applied. *)
Inductive reach_in (ntm : Machine) (c0 : Configuration)
  : nat -> Configuration -> Prop :=
| reach_in_O : reach_in ntm c0 0 c0
| reach_in_S n c t c' :
    reach_in ntm c0 n c ->
    In t (transitions ntm) -> matches c t = true ->
    successor c t = Some c' ->
    reach_in ntm c0 (S n) c'.

(** The same along computations that the exhaustive variant follows: a
    configuration in the reject state is not expanded. *)
Fixpoint open_frontier (ntm : Machine) (c0 : Configuration) (n : nat)
  : list Configuration :=
  match n with
  | O => [c0]
  | S n' => flat_map (Exhaustive.expand ntm) (open_frontier ntm c0 n')
  end.

Fixpoint open_levels_before (ntm : Machine) (c0 : Configuration) (n : nat)
  : list Configuration :=
  match n with
  | O => []
  | S n' => open_levels_before ntm c0 n' ++ open_frontier ntm c0 n'
  end.

Inductive open_reach_in (ntm : Machine) (c0 : Configuration)
  : nat -> Configuration -> Prop :=
| open_reach_in_O : open_reach_in ntm c0 0 c0
| open_reach_in_S n c t c' :
    open_reach_in ntm c0 n c ->
    state c <> reject_state ntm ->
    In t (transitions ntm) -> matches c t = true ->
    successor c t = Some c' ->
    open_reach_in ntm c0 (S n) c'.

(** [k] blanks. *)
Fixpoint blanks (k : nat) : string :=
  match k with
  | O => ""
  | S k' => String "_" (blanks k')
  end.

(** No two transitions share their state and the symbol they read. *)
Definition deterministic (ntm : Machine) : Prop :=
  NoDup (map (fun t => (current_state t, input_symbol t)) (transitions ntm)).

(** ** Example machines *)

(** One rule that reads [a] and is meant to write [b]. *)
Definition rewriter : Machine :=
  mkMachine "rewriter" ["q0"; "q1"; "qacc"; "qrej"] ["a"] ["a"; "b"; "_"]
    "q0" "qacc" "qrej"
    [mkTransition "q0" "a" "q1" "b" "R"].

(** Loops in [q0] over [a] and the blank, moving right. *)
Definition looper : Machine :=
  mkMachine "looper" ["q0"; "qacc"; "qrej"] ["a"] ["a"; "_"]
    "q0" "qacc" "qrej"
    [mkTransition "q0" "a" "q0" "a" "R";
     mkTransition "q0" "_" "q0" "_" "R"].

(** The [a+] recogniser: one or more [a], then a blank. *)
Definition a_plus : Machine :=
  mkMachine "a_plus" ["q0"; "q1"; "qacc"; "qrej"] ["a"] ["a"; "_"]
    "q0" "qacc" "qrej"
    [mkTransition "q0" "a" "q1" "a" "R";
     mkTransition "q1" "a" "q1" "a" "R";
     mkTransition "q1" "_" "qacc" "_" "R";
     mkTransition "q0" "_" "qrej" "_" "R"].

(** A machine with a rule out of its reject state. *)
Definition reject_exit : Machine :=
  mkMachine "reject_exit" ["q0"; "qacc"; "qrej"] ["a"] ["a"; "_"]
    "q0" "qacc" "qrej"
    [mkTransition "q0" "a" "qrej" "a" "R";
     mkTransition "qrej" "_" "q0" "_" "R"].

(** A rule that steps to the left. *)
Definition go_left : Transition := mkTransition "q0" "a" "q1" "a" "L".

(** * Properties *)

(** ** Strings *)

Lemma last_snoc (s : string) (a : ascii) :
  Py.last (s +:+ String a "") = Some (String a "").
Proof.
  induction s as [|b s IH]; simpl; [reflexivity|].
  rewrite IH. destruct s; reflexivity.
Qed.

Lemma init_snoc (s : string) (a : ascii) :
  Py.init (s +:+ String a "") = s.
Proof.
  induction s as [|b s IH]; simpl; [reflexivity|].
  rewrite IH. destruct s; reflexivity.
Qed.

(** The head symbol is always a single character. *)
Lemma head_symbol_char (config : Configuration) :
  exists a, head_symbol config = String a "".
Proof.
  unfold head_symbol. destruct (right config) as [|a r]; simpl; eauto.
Qed.

(** What is appended to [left] is the symbol that was read. *)
Lemma new_left_head (config : Configuration) :
  new_left config = left config +:+ head_symbol config.
Proof.
  unfold new_left, head_symbol. destruct (right config); reflexivity.
Qed.

Lemma matches_head (config : Configuration) (t : Transition) :
  matches config t = true ->
  state config = current_state t /\ head_symbol config = input_symbol t.
Proof.
  unfold matches. intros H. apply andb_true_iff in H as [H1 H2].
  split; now apply String.eqb_eq.
Qed.

(** ** One transition *)

Lemma successor_step (config : Configuration) (t : Transition) :
  successor config t = Some (step config t).
Proof.
  unfold successor, step.
  destruct (String.eqb (move_direction t) "L"); [|reflexivity].
  rewrite new_left_head.
  destruct (head_symbol_char config) as [a ->].
  now rewrite last_snoc, init_snoc.
Qed.

Lemma for_transitions_spec (ts : list Transition) (config : Configuration)
    (queue : list Configuration) :
  for_transitions ts config queue
  = Some (queue ++ map (step config) (List.filter (matches config) ts)).
Proof.
  revert queue. induction ts as [|t ts IH]; intros queue; simpl.
  - now rewrite app_nil_r.
  - destruct (matches config t); [|apply IH].
    rewrite successor_step, IH. simpl. now rewrite <- app_assoc.
Qed.

Lemma length_successors (ntm : Machine) (config : Configuration) :
  length (successors ntm config) = out_degree ntm config.
Proof. unfold successors, out_degree. now rewrite length_map. Qed.

(** ** Two runs of the [a+] recogniser *)

Example a_plus_accepts_aaa :
  Eager.simulate_ntm a_plus "aaa" 1000000
  = Eager.Returned
      [mkConfiguration "" "q0" "aaa"; mkConfiguration "a" "q1" "aa_";
       mkConfiguration "aa" "q1" "a__"; mkConfiguration "aaa" "q1" "___";
       mkConfiguration "aaa_" "qacc" "___"]
      "accept" 4 /\
  Exhaustive.simulate_ntm a_plus "aaa" 50
  = Exhaustive.Returned "String accepted in 4 steps!"
      [mkConfiguration "" "q0" "aaa"; mkConfiguration "a" "q1" "aa_";
       mkConfiguration "aa" "q1" "a__"; mkConfiguration "aaa" "q1" "___";
       mkConfiguration "aaa_" "qacc" "___"].
Proof. split; vm_compute; reflexivity. Qed.

Example a_plus_rejects_empty :
  Eager.simulate_ntm a_plus "" 1000000
  = Eager.Returned
      [mkConfiguration "" "q0" ""; mkConfiguration "_" "qrej" "_"]
      "reject" 1 /\
  Exhaustive.simulate_ntm a_plus "" 50
  = Exhaustive.Returned "Execution stopped after 2 steps (max depth reached)."
      [mkConfiguration "" "q0" ""; mkConfiguration "_" "qrej" "_"].
Proof. split; vm_compute; reflexivity. Qed.

(** ** Lists *)

(** A list either never satisfies a test or has a first element that does. *)
Lemma first_true {A : Type} (f : A -> bool) (l : list A) :
  Forall (fun x => f x = false) l
  \/ exists pre x post,
      l = pre ++ x :: post /\ Forall (fun x => f x = false) pre /\ f x = true.
Proof.
  induction l as [|a l IH]; [left; constructor|].
  destruct (f a) eqn:Ha.
  - right. exists [], a, l. repeat split; auto.
  - destruct IH as [IH|(pre & x & post & -> & Hpre & Hx)].
    + left. constructor; auto.
    + right. exists (a :: pre), x, post. repeat split; auto.
Qed.

(** ** One level of the eager variant *)

Module EagerFacts.
Import Eager.

Lemma eager_for_range_next (ntm : Machine) (n : nat) :
  forall queue explored,
    n <= length queue ->
    Forall (fun c => is_terminal ntm c = false) (take n queue) ->
    for_range ntm n queue explored
    = Next (drop n queue ++ flat_map (successors ntm) (take n queue))
           (explored ++ take n queue).
Proof.
  induction n as [|n IH]; intros queue explored Hn Hall; simpl.
  - now rewrite !app_nil_r.
  - destruct queue as [|c queue]; simpl in *; [lia|].
    apply Forall_cons in Hall as [Hc Hall].
    unfold is_terminal in Hc. apply orb_false_iff in Hc as [-> ->].
    rewrite for_transitions_spec. fold (successors ntm c).
    rewrite IH.
    + rewrite take_app_le, drop_app_le by lia.
      now rewrite <- !app_assoc.
    + rewrite length_app. lia.
    + rewrite take_app_le by lia. exact Hall.
Qed.

Lemma eager_for_range_return (ntm : Machine) (n : nat) :
  forall pre c post explored,
    length pre < n ->
    Forall (fun c => is_terminal ntm c = false) pre ->
    is_terminal ntm c = true ->
    for_range ntm n (pre ++ c :: post) explored
    = Return (explored ++ pre ++ [c]) (verdict ntm c).
Proof.
  induction n as [|n IH]; intros pre c post explored Hn Hall Hc; [lia|].
  destruct pre as [|p pre]; simpl.
  - unfold is_terminal in Hc. unfold verdict.
    destruct (String.eqb (state c) (accept_state ntm)); [reflexivity|].
    simpl in Hc. now rewrite Hc.
  - apply Forall_cons in Hall as [Hp Hall].
    unfold is_terminal in Hp. apply orb_false_iff in Hp as [-> ->].
    rewrite for_transitions_spec, <- app_assoc. simpl.
    rewrite IH; simpl in *; try lia; try assumption.
    now rewrite <- app_assoc.
Qed.

(** A level either runs through or stops at its first terminal
    configuration; it never pops from an empty deque. *)
Lemma eager_for_range_cases (ntm : Machine) (queue explored : list Configuration) :
  (Forall (fun c => is_terminal ntm c = false) queue /\
   for_range ntm (length queue) queue explored
   = Next (flat_map (successors ntm) queue) (explored ++ queue))
  \/
  (exists pre c post,
      queue = pre ++ c :: post /\
      Forall (fun c => is_terminal ntm c = false) pre /\
      is_terminal ntm c = true /\
      for_range ntm (length queue) queue explored
      = Return (explored ++ pre ++ [c]) (verdict ntm c)).
Proof.
  destruct (first_true (is_terminal ntm) queue)
    as [Hall|(pre & c & post & -> & Hpre & Hc)].
  - left. split; [exact Hall|].
    rewrite eager_for_range_next; rewrite ?firstn_all, ?skipn_all; auto.
  - right. exists pre, c, post. repeat split; auto.
    apply eager_for_range_return; auto.
    rewrite length_app. simpl. lia.
Qed.

(** *** The [while] loop of the eager variant

    A loop rule: an invariant [P] of the loop head, kept by every level that
    runs through, holds when the loop is left; with fuel for
    [max_depth - steps] levels the loop is always left, and never by an
    [IndexError]. *)

Lemma eager_while_loop_unfold (ntm : Machine) (max_depth : Z) (fuel : nat)
    (queue : list Configuration) (steps : Z) (explored : list Configuration) :
  while_loop ntm max_depth fuel queue steps explored
  = if negb (Nat.eqb (length queue) 0) && (steps <? max_depth)%Z then
      match fuel with
      | O => OutOfFuel
      | S fuel' =>
          match for_range ntm (length queue) queue explored with
          | Next queue' explored' =>
              while_loop ntm max_depth fuel' queue' (steps + 1)%Z explored'
          | Return explored' result => Halted explored' result steps
          | IndexError => Raised
          end
      end
    else Stopped queue explored steps.
Proof. destruct fuel; reflexivity. Qed.

Section EagerLoopRule.

Variable ntm : Machine.
Variable max_depth : Z.
Variable P : list Configuration -> Z -> list Configuration -> Prop.

Hypothesis P_level :
  forall queue steps explored,
    P queue steps explored ->
    queue <> [] -> (steps < max_depth)%Z ->
    Forall (fun c => is_terminal ntm c = false) queue ->
    P (flat_map (successors ntm) queue) (steps + 1)%Z (explored ++ queue).

Lemma eager_while_loop_rule (fuel : nat) :
  forall queue steps explored,
    P queue steps explored ->
    Z.to_nat (max_depth - steps) <= fuel ->
    match while_loop ntm max_depth fuel queue steps explored with
    | Stopped queue' explored' steps' =>
        P queue' steps' explored' /\ (queue' = [] \/ (max_depth <= steps')%Z)
    | Halted explored' result steps' =>
        exists queue0 explored0 pre c post,
          P queue0 steps' explored0 /\ (steps' < max_depth)%Z /\
          queue0 = pre ++ c :: post /\
          Forall (fun c => is_terminal ntm c = false) pre /\
          is_terminal ntm c = true /\
          explored' = explored0 ++ pre ++ [c] /\ result = verdict ntm c
    | Raised => False
    | OutOfFuel => False
    end.
Proof.
  induction fuel as [|fuel IH]; intros queue steps explored HP Hfuel;
    rewrite eager_while_loop_unfold.
  - destruct queue as [|c queue]; simpl; [auto|].
    destruct (Z.ltb_spec steps max_depth); [lia|]. auto.
  - destruct queue as [|c queue]; [simpl; auto|].
    destruct (Z.ltb_spec steps max_depth) as [Hlt|Hge]; [|simpl; auto].
    cbn [length Nat.eqb negb andb].
    change (S (length queue)) with (length (c :: queue)).
    destruct (eager_for_range_cases ntm (c :: queue) explored)
      as [[Hall ->]|(pre & x & post & Hq & Hpre & Hx & ->)].
    + apply IH; [|lia]. apply P_level; auto; discriminate.
    + exists (c :: queue), explored, pre, x, post. repeat split; auto.
Qed.

End EagerLoopRule.

End EagerFacts.

(** ** One level of the exhaustive variant *)

Module ExhaustiveFacts.
Import Exhaustive.

Lemma exhaustive_for_range_next (ntm : Machine) (n : nat) :
  forall queue explored,
    n <= length queue ->
    Forall (fun c => is_accept ntm c = false) (take n queue) ->
    for_range ntm n queue explored
    = Next (drop n queue ++ flat_map (expand ntm) (take n queue))
           (explored ++ take n queue).
Proof.
  induction n as [|n IH]; intros queue explored Hn Hall; simpl.
  - now rewrite !app_nil_r.
  - destruct queue as [|c queue]; simpl in *; [lia|].
    apply Forall_cons in Hall as [Hc Hall].
    unfold is_accept in Hc. rewrite Hc. unfold expand.
    destruct (String.eqb (state c) (reject_state ntm)); simpl.
    + rewrite IH by (auto; lia). now rewrite <- !app_assoc.
    + rewrite for_transitions_spec. fold (successors ntm c).
      rewrite IH.
      * rewrite take_app_le, drop_app_le by lia.
        now rewrite <- !app_assoc.
      * rewrite length_app. lia.
      * rewrite take_app_le by lia. exact Hall.
Qed.

Lemma exhaustive_for_range_return (ntm : Machine) (n : nat) :
  forall pre c post explored,
    length pre < n ->
    Forall (fun c => is_accept ntm c = false) pre ->
    is_accept ntm c = true ->
    for_range ntm n (pre ++ c :: post) explored
    = Return (explored ++ pre ++ [c]).
Proof.
  induction n as [|n IH]; intros pre c post explored Hn Hall Hc; [lia|].
  destruct pre as [|p pre]; simpl.
  - unfold is_accept in Hc. now rewrite Hc.
  - apply Forall_cons in Hall as [Hp Hall].
    unfold is_accept in Hp. rewrite Hp.
    destruct (String.eqb (state p) (reject_state ntm)).
    + rewrite IH; simpl in *; try lia; try assumption.
      now rewrite <- app_assoc.
    + rewrite for_transitions_spec, <- app_assoc. simpl.
      rewrite IH; simpl in *; try lia; try assumption.
      now rewrite <- app_assoc.
Qed.

Lemma exhaustive_for_range_cases (ntm : Machine) (queue explored : list Configuration) :
  (Forall (fun c => is_accept ntm c = false) queue /\
   for_range ntm (length queue) queue explored
   = Next (flat_map (expand ntm) queue) (explored ++ queue))
  \/
  (exists pre c post,
      queue = pre ++ c :: post /\
      Forall (fun c => is_accept ntm c = false) pre /\
      is_accept ntm c = true /\
      for_range ntm (length queue) queue explored
      = Return (explored ++ pre ++ [c])).
Proof.
  destruct (first_true (is_accept ntm) queue)
    as [Hall|(pre & c & post & -> & Hpre & Hc)].
  - left. split; [exact Hall|].
    rewrite exhaustive_for_range_next; rewrite ?firstn_all, ?skipn_all; auto.
  - right. exists pre, c, post. repeat split; auto.
    apply exhaustive_for_range_return; auto.
    rewrite length_app. simpl. lia.
Qed.

(** *** The [while] loop of the exhaustive variant *)

Lemma exhaustive_while_loop_unfold (ntm : Machine) (max_depth : Z) (fuel : nat)
    (queue : list Configuration) (steps : Z) (explored : list Configuration) :
  while_loop ntm max_depth fuel queue steps explored
  = if negb (Nat.eqb (length queue) 0) && (steps <? max_depth)%Z then
      match fuel with
      | O => OutOfFuel
      | S fuel' =>
          match for_range ntm (length queue) queue explored with
          | Next queue' explored' =>
              while_loop ntm max_depth fuel' queue' (steps + 1)%Z explored'
          | Return explored' => Accepted explored' steps
          | IndexError => Raised
          end
      end
    else Stopped queue explored steps.
Proof. destruct fuel; reflexivity. Qed.

Section ExhaustiveLoopRule.

Variable ntm : Machine.
Variable max_depth : Z.
Variable P : list Configuration -> Z -> list Configuration -> Prop.

Hypothesis P_level :
  forall queue steps explored,
    P queue steps explored ->
    queue <> [] -> (steps < max_depth)%Z ->
    Forall (fun c => is_accept ntm c = false) queue ->
    P (flat_map (expand ntm) queue) (steps + 1)%Z (explored ++ queue).

Lemma exhaustive_while_loop_rule (fuel : nat) :
  forall queue steps explored,
    P queue steps explored ->
    Z.to_nat (max_depth - steps) <= fuel ->
    match while_loop ntm max_depth fuel queue steps explored with
    | Stopped queue' explored' steps' =>
        P queue' steps' explored' /\ (queue' = [] \/ (max_depth <= steps')%Z)
    | Accepted explored' steps' =>
        exists queue0 explored0 pre c post,
          P queue0 steps' explored0 /\ (steps' < max_depth)%Z /\
          queue0 = pre ++ c :: post /\
          Forall (fun c => is_accept ntm c = false) pre /\
          is_accept ntm c = true /\
          explored' = explored0 ++ pre ++ [c]
    | Raised => False
    | OutOfFuel => False
    end.
Proof.
  induction fuel as [|fuel IH]; intros queue steps explored HP Hfuel;
    rewrite exhaustive_while_loop_unfold.
  - destruct queue as [|c queue]; simpl; [auto|].
    destruct (Z.ltb_spec steps max_depth); [lia|]. auto.
  - destruct queue as [|c queue]; [simpl; auto|].
    destruct (Z.ltb_spec steps max_depth) as [Hlt|Hge]; [|simpl; auto].
    cbn [length Nat.eqb negb andb].
    change (S (length queue)) with (length (c :: queue)).
    destruct (exhaustive_for_range_cases ntm (c :: queue) explored)
      as [[Hall ->]|(pre & x & post & Hq & Hpre & Hx & ->)].
    + apply IH; [|lia]. apply P_level; auto; discriminate.
    + exists (c :: queue), explored, pre, x, post. repeat split; auto.
Qed.

End ExhaustiveLoopRule.

End ExhaustiveFacts.

(** * The claims *)

(** ** The successor configuration *)

(** C1 (as the code has it): for every configuration and every matching
    transition the successor exists, is in the transition's [next_state], and
    is built from the symbol under the head, which is the transition's
    [input_symbol]: with a direction other than ["L"] the successor's [left]
    is the predecessor's [left] with that symbol appended, with ["L"] the
    appended symbol is popped again, so [left] is unchanged and the symbol is
    the first one of the successor's [right].  [write_symbol] plays no part. *)
Theorem successor_appends_head_symbol (config : Configuration) (t : Transition) :
  matches config t = true ->
  exists c',
    successor config t = Some c' /\
    state c' = next_state t /\
    (move_direction t <> "L" ->
       left c' = left config +:+ input_symbol t /\
       right c' = new_right config) /\
    (move_direction t = "L" ->
       left c' = left config /\
       right c' = input_symbol t +:+ new_right config).
Proof.
  intros Hm. apply matches_head in Hm as [_ Hh].
  exists (step config t). rewrite successor_step. split; [reflexivity|].
  unfold step. destruct (String.eqb_spec (move_direction t) "L") as [HL|HL];
    simpl; rewrite ?new_left_head, ?Hh; repeat split; auto; congruence.
Qed.

Lemma successor_appends_head_symbol_witness :
  exists c',
    successor (mkConfiguration "" "q0" "ab") go_left = Some c' /\
    left c' = "" /\ right c' = "ab_".
Proof.
  destruct (successor_appends_head_symbol
              (mkConfiguration "" "q0" "ab") go_left eq_refl)
    as (c' & Hs & _ & _ & HL).
  exists c'. split; [exact Hs|]. apply HL. reflexivity.
Defined.

(** C1 as stated fails: the rule of [rewriter] reads [a] and names [b] as
    its write symbol, yet the successor's [left] is ["a"], not ["b"]; and a
    left move leaves [left] as it was. *)
Lemma successor_ignores_write_symbol :
  let config := mkConfiguration "" "q0" "a" in
  let t := mkTransition "q0" "a" "q1" "b" "R" in
  (matches config t = true /\
   exists c', successor config t = Some c' /\
              left c' <> left config +:+ write_symbol t) /\
  (matches config go_left = true /\
   exists c', successor config go_left = Some c' /\
              left c' <> left config +:+ write_symbol go_left) /\
  Eager.simulate_ntm rewriter "a" 2
  = Eager.Returned [mkConfiguration "" "q0" "a"; mkConfiguration "a" "q1" "_"]
      "timed out" 2 /\
  Exhaustive.simulate_ntm rewriter "a" 2
  = Exhaustive.Returned "Execution stopped after 2 steps (max depth reached)."
      [mkConfiguration "" "q0" "a"; mkConfiguration "a" "q1" "_"].
Proof.
  cbv zeta. repeat split.
  - eexists. split; [reflexivity|]. discriminate.
  - eexists. split; [reflexivity|]. discriminate.
Qed.

(** C6: the symbol used for matching is the first character of [right], or
    the blank when [right] is empty; so a configuration with an empty
    [right] matches exactly the transitions it would match with [right]
    holding one blank, the lookup over any transition list agrees, and the
    loop over the transitions enqueues a successor for exactly the
    transitions of the configuration's state that read the blank. *)
Theorem empty_right_reads_blank (l s : string) :
  head_symbol (mkConfiguration l s "") = "_" /\
  (forall a r, head_symbol (mkConfiguration l s (String a r)) = String a "") /\
  (forall t, matches (mkConfiguration l s "") t
             = matches (mkConfiguration l s "_") t) /\
  (forall t, matches (mkConfiguration l s "") t
             = String.eqb s (current_state t)
               && String.eqb "_" (input_symbol t)) /\
  (forall ts, List.filter (matches (mkConfiguration l s "")) ts
              = List.filter (matches (mkConfiguration l s "_")) ts) /\
  (forall ts queue,
      for_transitions ts (mkConfiguration l s "") queue
      = Some (queue ++
              map (step (mkConfiguration l s ""))
                (List.filter
                   (fun t => String.eqb s (current_state t)
                             && String.eqb "_" (input_symbol t)) ts))).
Proof.
  repeat split. intros ts queue. apply for_transitions_spec.
Qed.

(** C7: for a transition that moves left, the last character of the
    just-extended [left] exists, is the symbol that was appended, and is
    moved to the front of [right]; building the successor raises nothing,
    for any configuration at all, and so the loop over the transitions
    always runs to its end. *)
Theorem left_move_pop_never_fails (config : Configuration) :
  new_left config <> "" /\
  (forall t,
      move_direction t = "L" ->
      exists c,
        Py.last (new_left config) = Some c /\
        new_left config = Py.init (new_left config) +:+ c /\
        successor config t
        = Some (mkConfiguration (Py.init (new_left config)) (next_state t)
                  (c +:+ new_right config))) /\
  (forall ts queue,
      exists queue', for_transitions ts config queue = Some queue').
Proof.
  rewrite new_left_head.
  destruct (head_symbol_char config) as [a Ha]. rewrite Ha. repeat split.
  - destruct (left config); discriminate.
  - intros t HL. exists (String a ""). rewrite last_snoc, init_snoc.
    repeat split. unfold successor.
    rewrite HL, new_left_head, Ha, last_snoc, init_snoc. reflexivity.
  - intros ts queue. rewrite for_transitions_spec. eauto.
Qed.

Lemma left_move_pop_never_fails_witness :
  successor (mkConfiguration "" "q0" "") go_left
  = Some (mkConfiguration "" "q1" "__").
Proof.
  destruct (left_move_pop_never_fails (mkConfiguration "" "q0" ""))
    as (_ & Hpop & _).
  destruct (Hpop go_left eq_refl) as (c & Hc & _ & Hs).
  rewrite Hs. injection Hc as <-. reflexivity.
Defined.

(** C9: a transition whose direction is anything but the literal ["L"]
    yields the successor of the same transition with direction ["R"], and
    matching does not look at the direction at all. *)
Theorem non_left_moves_right (config : Configuration) (t : Transition) :
  move_direction t <> "L" ->
  successor config t = successor config (with_direction t "R") /\
  successor config t
  = Some (mkConfiguration (new_left config) (next_state t) (new_right config)) /\
  matches config t = matches config (with_direction t "R").
Proof.
  intros HL. unfold successor. simpl.
  destruct (String.eqb_spec (move_direction t) "L"); [contradiction|].
  repeat split.
Qed.

Lemma non_left_moves_right_witness :
  successor (mkConfiguration "x" "q0" "ab") (mkTransition "q0" "a" "q1" "a" "l")
  = Some (mkConfiguration "xa" "q1" "b_").
Proof.
  destruct (non_left_moves_right (mkConfiguration "x" "q0" "ab")
              (mkTransition "q0" "a" "q1" "a" "l")) as (_ & H & _).
  - discriminate.
  - exact H.
Defined.

(** ** Termination policies *)

(** C2: in the eager variant a level that reaches a configuration in the
    accept state (every configuration dequeued before it in the level being
    non-terminal) leaves the loop at once: the trace ends with that
    configuration, the rest of the level is not dequeued, the result is
    ["accept"] and the step count is the one of the level under way; the same
    with ["reject"] for the reject state of a machine whose accept and reject
    states differ.  A whole run therefore has no terminal configuration
    before the last element of its trace, and reports the verdict of that
    element. *)
Theorem eager_stops_at_first_terminal (ntm : Machine) :
  (forall max_depth fuel pre config post steps explored,
      (steps < max_depth)%Z ->
      Forall (fun c => Eager.is_terminal ntm c = false) pre ->
      (state config = accept_state ntm ->
       Eager.while_loop ntm max_depth (S fuel) (pre ++ config :: post)
         steps explored
       = Eager.Halted (explored ++ pre ++ [config]) "accept" steps) /\
      (accept_state ntm <> reject_state ntm ->
       state config = reject_state ntm ->
       Eager.while_loop ntm max_depth (S fuel) (pre ++ config :: post)
         steps explored
       = Eager.Halted (explored ++ pre ++ [config]) "reject" steps)) /\
  (forall input_string max_depth,
      exists explored result steps,
        Eager.simulate_ntm ntm input_string max_depth
        = Eager.Returned explored result steps /\
        ((result = "timed out" /\
          Forall (fun c => Eager.is_terminal ntm c = false) explored) \/
         (exists before config,
             explored = before ++ [config] /\
             Forall (fun c => Eager.is_terminal ntm c = false) before /\
             ((state config = accept_state ntm /\ result = "accept") \/
              (state config = reject_state ntm /\ result = "reject"))))).
Proof.
  split.
  - intros max_depth fuel pre config post steps explored Hlt Hpre.
    assert (Hgo : forall r,
               Eager.is_terminal ntm config = true ->
               Eager.verdict ntm config = r ->
               Eager.while_loop ntm max_depth (S fuel) (pre ++ config :: post)
                 steps explored
               = Eager.Halted (explored ++ pre ++ [config]) r steps).
    { intros r Ht Hv. rewrite EagerFacts.eager_while_loop_unfold.
      rewrite length_app. simpl length.
      replace (length pre + S (length post)) with (S (length pre + length post))
        by lia.
      cbn [Nat.eqb negb andb].
      destruct (Z.ltb_spec steps max_depth); [|lia].
      rewrite EagerFacts.eager_for_range_return; auto; [now rewrite Hv|lia]. }
    unfold Eager.is_terminal, Eager.verdict in Hgo. split.
    + intros Hst. apply Hgo; rewrite Hst, String.eqb_refl; reflexivity.
    + intros Hne Hst. apply Hgo; rewrite Hst.
      * rewrite String.eqb_refl. apply orb_true_r.
      * destruct (String.eqb_spec (reject_state ntm) (accept_state ntm));
          [congruence|reflexivity].
  - intros input_string max_depth. unfold Eager.simulate_ntm.
    pose proof (EagerFacts.eager_while_loop_rule ntm max_depth
                  (fun _ _ e => Forall (fun c => Eager.is_terminal ntm c = false) e))
      as Hrule.
    specialize (Hrule ltac:(intros; apply Forall_app; auto)
                  (Z.to_nat max_depth) [initial ntm input_string] 0%Z []
                  ltac:(constructor) ltac:(lia)).
    destruct (Eager.while_loop _ _ _ _ _ _) as [e r st|q e st| |];
      try contradiction.
    + destruct Hrule as (q0 & e0 & pre & c & post & He0 & _ & _ & Hpre & Hc & -> & ->).
      exists (e0 ++ pre ++ [c]), (Eager.verdict ntm c), st.
      split; [reflexivity|]. right.
      exists (e0 ++ pre), c. rewrite <- app_assoc.
      split; [reflexivity|]. split; [apply Forall_app; auto|].
      unfold Eager.is_terminal in Hc. unfold Eager.verdict.
      destruct (String.eqb_spec (state c) (accept_state ntm)); [left; auto|].
      right. simpl in Hc. apply String.eqb_eq in Hc. auto.
    + exists e, "timed out", st. split; [reflexivity|]. left. tauto.
Qed.

Lemma eager_stops_at_first_terminal_witness :
  Eager.while_loop a_plus 10 1
    [mkConfiguration "" "q0" "_"; mkConfiguration "a" "qrej" "_";
     mkConfiguration "aa" "q1" "_"] 3 []
  = Eager.Halted [mkConfiguration "" "q0" "_"; mkConfiguration "a" "qrej" "_"]
      "reject" 3.
Proof.
  destruct (eager_stops_at_first_terminal a_plus) as [Hloop _].
  destruct (Hloop 10%Z 0 [mkConfiguration "" "q0" "_"]
              (mkConfiguration "a" "qrej" "_") [mkConfiguration "aa" "q1" "_"]
              3%Z []) as [_ Hrej].
  - reflexivity.
  - repeat constructor.
  - apply Hrej; [discriminate|reflexivity].
Defined.

(** C3: in the exhaustive variant a level that reaches a configuration in
    the accept state (none dequeued before it in the level being accepting)
    leaves the loop at once and the accept message is printed; a dequeued
    configuration in the reject state of a machine whose accept and reject
    states differ is appended to the trace and adds nothing to the queue, the
    rest of the level going on as before; and a run is only ever left by
    acceptance or with an empty queue or the step count at the depth bound,
    the timeout message being printed in the last two cases. *)
Theorem exhaustive_reject_closes_branch (ntm : Machine) :
  (forall max_depth fuel pre config post steps explored,
      (steps < max_depth)%Z ->
      Forall (fun c => Exhaustive.is_accept ntm c = false) pre ->
      state config = accept_state ntm ->
      Exhaustive.while_loop ntm max_depth (S fuel) (pre ++ config :: post)
        steps explored
      = Exhaustive.Accepted (explored ++ pre ++ [config]) steps) /\
  (forall n config queue explored,
      accept_state ntm <> reject_state ntm ->
      state config = reject_state ntm ->
      Exhaustive.for_range ntm (S n) (config :: queue) explored
      = Exhaustive.for_range ntm n queue (explored ++ [config])) /\
  (forall input_string max_depth,
      (exists before config steps,
          Exhaustive.while_loop ntm max_depth (Z.to_nat max_depth)
            [initial ntm input_string] 0%Z []
          = Exhaustive.Accepted (before ++ [config]) steps /\
          state config = accept_state ntm /\
          Forall (fun c => Exhaustive.is_accept ntm c = false) before /\
          Exhaustive.simulate_ntm ntm input_string max_depth
          = Exhaustive.Returned (Exhaustive.accepted_message steps)
              (before ++ [config])) \/
      (exists queue explored steps,
          Exhaustive.while_loop ntm max_depth (Z.to_nat max_depth)
            [initial ntm input_string] 0%Z []
          = Exhaustive.Stopped queue explored steps /\
          (queue = [] \/ (max_depth <= steps)%Z) /\
          Forall (fun c => Exhaustive.is_accept ntm c = false) explored /\
          Exhaustive.simulate_ntm ntm input_string max_depth
          = Exhaustive.Returned (Exhaustive.timeout_message steps) explored)).
Proof.
  repeat split.
  - intros max_depth fuel pre config post steps explored Hlt Hpre Hst.
    rewrite ExhaustiveFacts.exhaustive_while_loop_unfold.
    rewrite length_app. simpl length.
    replace (length pre + S (length post)) with (S (length pre + length post))
      by lia.
    cbn [Nat.eqb negb andb].
    destruct (Z.ltb_spec steps max_depth); [|lia].
    rewrite ExhaustiveFacts.exhaustive_for_range_return; auto; [lia|].
    unfold Exhaustive.is_accept. rewrite Hst. apply String.eqb_refl.
  - intros n config queue explored Hne Hst. simpl. rewrite Hst.
    destruct (String.eqb_spec (reject_state ntm) (accept_state ntm));
      [congruence|].
    now rewrite String.eqb_refl.
  - intros input_string max_depth. unfold Exhaustive.simulate_ntm.
    pose proof (ExhaustiveFacts.exhaustive_while_loop_rule ntm max_depth
                  (fun _ _ e =>
                     Forall (fun c => Exhaustive.is_accept ntm c = false) e))
      as Hrule.
    specialize (Hrule ltac:(intros; apply Forall_app; auto)
                  (Z.to_nat max_depth) [initial ntm input_string] 0%Z []
                  ltac:(constructor) ltac:(lia)).
    destruct (Exhaustive.while_loop _ _ _ _ _ _) as [e st|q e st| |];
      try contradiction.
    + destruct Hrule as (q0 & e0 & pre & c & post & He0 & _ & _ & Hpre & Hc & ->).
      left. exists (e0 ++ pre), c, st. rewrite <- !app_assoc.
      repeat split; [now apply String.eqb_eq|apply Forall_app; auto].
    + right. exists q, e, st. tauto.
Qed.

Lemma exhaustive_reject_closes_branch_witness :
  Exhaustive.for_range a_plus 2
    [mkConfiguration "a" "qrej" "_"; mkConfiguration "a" "q1" "a"] []
  = Exhaustive.Next [mkConfiguration "aa" "q1" "_"]
      [mkConfiguration "a" "qrej" "_"; mkConfiguration "a" "q1" "a"].
Proof.
  destruct (exhaustive_reject_closes_branch a_plus) as (_ & Hrej & _).
  rewrite Hrej; [reflexivity|discriminate|reflexivity].
Defined.

(** ** Termination and the depth bound *)

Lemma symbols_app (s1 s2 : string) :
  symbols (s1 +:+ s2) = symbols s1 ++ symbols s2.
Proof.
  unfold symbols. induction s1 as [|a s1 IH]; simpl; [reflexivity|].
  now rewrite IH.
Qed.

Section SelfLoop.

Variable ntm : Machine.
Variable input_string : string.
Hypothesis Hloop : self_loop ntm input_string.

Lemma looping_initial : looping ntm input_string (initial ntm input_string).
Proof.
  split; [reflexivity|]. simpl. apply Forall_forall. intros a Ha.
  right. now apply list_elem_of_In.
Qed.

Lemma looping_head (c : Configuration) :
  looping ntm input_string c ->
  exists a, head_symbol c = String a "" /\
            (a = "_"%char \/ In a (symbols input_string)).
Proof.
  intros [_ Hr]. unfold head_symbol.
  destruct (right c) as [|a r]; simpl in *.
  - exists "_"%char. auto.
  - exists a. split; [reflexivity|]. now apply Forall_cons in Hr as [Ha _].
Qed.

Lemma looping_new_right (c : Configuration) :
  looping ntm input_string c ->
  Forall (fun a => a = "_"%char \/ In a (symbols input_string))
    (symbols (new_right c)).
Proof.
  intros [_ Hr]. unfold new_right. rewrite symbols_app.
  apply Forall_app. split; [|repeat constructor].
  destruct (right c) as [|a r]; simpl in *; [constructor|].
  apply Forall_cons in Hr as [_ Hr].
  destruct r; simpl; [constructor|exact Hr].
Qed.

Lemma looping_step (c : Configuration) (t : Transition) :
  looping ntm input_string c ->
  In t (transitions ntm) -> matches c t = true ->
  looping ntm input_string (step c t).
Proof.
  intros Hc Hin Hm. destruct Hloop as (_ & _ & Hback & _).
  apply matches_head in Hm as [Hst _].
  assert (Hns : next_state t = start_state ntm).
  { apply Hback; [exact Hin|]. destruct Hc as [Hs _]. congruence. }
  pose proof (looping_new_right c Hc) as Hnr.
  destruct (looping_head c Hc) as (a & Ha & HA).
  unfold step. destruct (String.eqb (move_direction t) "L"); split; simpl; auto.
  rewrite Ha. simpl. constructor; auto.
Qed.

Lemma looping_successors (c : Configuration) :
  looping ntm input_string c ->
  successors ntm c <> [] /\ Forall (looping ntm input_string) (successors ntm c).
Proof.
  intros Hc. split.
  - destruct (looping_head c Hc) as (a & Ha & HA).
    destruct Hloop as (_ & _ & _ & Hev).
    destruct (Hev a HA) as (t & Hin & Hcs & His).
    assert (Hm : matches c t = true).
    { unfold matches. destruct Hc as [Hs _].
      rewrite Hs, Hcs, Ha, His, !String.eqb_refl. reflexivity. }
    unfold successors. intros Hnil. apply map_eq_nil in Hnil.
    assert (Hf : In t (List.filter (matches c) (transitions ntm)))
      by (apply filter_In; auto).
    rewrite Hnil in Hf. destruct Hf.
  - unfold successors. apply Forall_forall. intros c' Hc'.
    apply list_elem_of_In, in_map_iff in Hc' as (t & <- & Ht).
    apply filter_In in Ht as [Hin Hm]. now apply looping_step.
Qed.

Lemma looping_level (queue : list Configuration) :
  queue <> [] -> Forall (looping ntm input_string) queue ->
  flat_map (successors ntm) queue <> [] /\
  Forall (looping ntm input_string) (flat_map (successors ntm) queue).
Proof.
  intros Hne Hall. split.
  - destruct queue as [|c queue]; [contradiction|]. simpl.
    apply Forall_cons in Hall as [Hc _].
    destruct (looping_successors c Hc) as [Hs _].
    destruct (successors ntm c); [contradiction|discriminate].
  - clear Hne. induction Hall as [|c queue Hc _ IH]; simpl; [constructor|].
    apply Forall_app. split; [|exact IH]. now apply looping_successors.
Qed.

Lemma looping_not_terminal (c : Configuration) :
  looping ntm input_string c ->
  Eager.is_terminal ntm c = false /\ Exhaustive.is_accept ntm c = false /\
  Exhaustive.expand ntm c = successors ntm c.
Proof.
  intros [Hs _]. destruct Hloop as (Hna & Hnr & _).
  unfold Eager.is_terminal, Exhaustive.is_accept, Exhaustive.expand.
  rewrite Hs.
  destruct (String.eqb_spec (start_state ntm) (accept_state ntm));
    [contradiction|].
  destruct (String.eqb_spec (start_state ntm) (reject_state ntm));
    [contradiction|].
  auto.
Qed.

End SelfLoop.

Lemma flat_map_expand_looping (ntm : Machine) (input_string : string)
    (queue : list Configuration) :
  self_loop ntm input_string ->
  Forall (looping ntm input_string) queue ->
  flat_map (Exhaustive.expand ntm) queue = flat_map (successors ntm) queue.
Proof.
  intros Hloop Hall. induction Hall as [|c queue Hc _ IH]; simpl; [reflexivity|].
  destruct (looping_not_terminal ntm input_string Hloop c Hc) as (_ & _ & ->).
  now rewrite IH.
Qed.

(** C4: both variants of [simulate_ntm] return for every machine, input and
    depth bound (no fuel shortage, no [IndexError]); the number of levels
    processed is never negative and, for a depth bound that is not negative,
    never above it; and on a machine that loops in its start state the run
    with depth bound 5 times out after exactly 5 levels with a trace that is
    not empty. *)
Theorem simulate_ntm_terminates_within_bound
    (ntm : Machine) (input_string : string) :
  (forall max_depth,
      (exists explored result steps,
          Eager.simulate_ntm ntm input_string max_depth
          = Eager.Returned explored result steps /\
          (0 <= steps)%Z /\ ((0 <= max_depth)%Z -> (steps <= max_depth)%Z)) /\
      (exists explored steps,
          (0 <= steps)%Z /\ ((0 <= max_depth)%Z -> (steps <= max_depth)%Z) /\
          (Exhaustive.simulate_ntm ntm input_string max_depth
           = Exhaustive.Returned (Exhaustive.accepted_message steps) explored \/
           Exhaustive.simulate_ntm ntm input_string max_depth
           = Exhaustive.Returned (Exhaustive.timeout_message steps) explored))) /\
  (self_loop ntm input_string ->
   (exists explored,
       Eager.simulate_ntm ntm input_string 5
       = Eager.Returned explored "timed out" 5 /\ explored <> []) /\
   (exists explored,
       Exhaustive.simulate_ntm ntm input_string 5
       = Exhaustive.Returned
           "Execution stopped after 5 steps (max depth reached)." explored /\
       explored <> [])).
Proof.
  split.
  - intros max_depth.
    set (P := fun (_ : list Configuration) (s : Z) (_ : list Configuration) =>
                (0 <= s)%Z /\ ((0 <= max_depth)%Z -> (s <= max_depth)%Z)).
    split.
    + unfold Eager.simulate_ntm.
      pose proof (EagerFacts.eager_while_loop_rule ntm max_depth P) as Hrule.
      specialize (Hrule ltac:(unfold P; intros; lia)
                    (Z.to_nat max_depth) [initial ntm input_string] 0%Z []
                    ltac:(unfold P; lia) ltac:(lia)).
      destruct (Eager.while_loop _ _ _ _ _ _) as [e r st|q e st| |];
        try contradiction.
      * destruct Hrule as (q0 & e0 & pre & c & post & HP & Hlt & _).
        exists e, r, st. unfold P in HP. repeat split; lia.
      * destruct Hrule as [HP _]. exists e, "timed out", st.
        unfold P in HP. repeat split; lia.
    + unfold Exhaustive.simulate_ntm.
      pose proof (ExhaustiveFacts.exhaustive_while_loop_rule ntm max_depth P)
        as Hrule.
      specialize (Hrule ltac:(unfold P; intros; lia)
                    (Z.to_nat max_depth) [initial ntm input_string] 0%Z []
                    ltac:(unfold P; lia) ltac:(lia)).
      destruct (Exhaustive.while_loop _ _ _ _ _ _) as [e st|q e st| |];
        try contradiction.
      * destruct Hrule as (q0 & e0 & pre & c & post & HP & Hlt & _).
        exists e, st. unfold P in HP. repeat split; auto; lia.
      * destruct Hrule as [HP _]. exists e, st.
        unfold P in HP. repeat split; auto; lia.
  - intros Hloop.
    set (P := fun (q : list Configuration) (s : Z) (e : list Configuration) =>
                q <> [] /\ Forall (looping ntm input_string) q /\
                (0 <= s <= 5)%Z /\ ((0 < s)%Z -> e <> [])).
    assert (HP0 : P [initial ntm input_string] 0%Z []).
    { unfold P. repeat split; try lia; [discriminate|].
      constructor; [apply looping_initial|constructor]. }
    split.
    + unfold Eager.simulate_ntm.
      pose proof (EagerFacts.eager_while_loop_rule ntm 5 P) as Hrule.
      assert (Hstep : forall queue steps explored,
                 P queue steps explored -> queue <> [] -> (steps < 5)%Z ->
                 Forall (fun c => Eager.is_terminal ntm c = false) queue ->
                 P (flat_map (successors ntm) queue) (steps + 1)%Z
                   (explored ++ queue)).
      { unfold P. intros q s e (Hq & HJ & Hs & He) _ Hlt _.
        destruct (looping_level ntm input_string Hloop q Hq HJ) as [H1 H2].
        repeat split; auto; try lia.
        intros _ Happ. apply app_eq_nil in Happ as [_ ?]. contradiction. }
      specialize (Hrule Hstep (Z.to_nat 5) [initial ntm input_string] 0%Z []
                    HP0 ltac:(lia)).
      destruct (Eager.while_loop _ _ _ _ _ _) as [e r st|q e st| |];
        try contradiction.
      * destruct Hrule as (q0 & e0 & pre & c & post & HP & _ & Hq0 & _ & Hc & _).
        destruct HP as (_ & HJ & _). rewrite Hq0 in HJ.
        apply Forall_app in HJ as [_ HJ]. apply Forall_cons in HJ as [HJ _].
        apply (looping_not_terminal ntm input_string Hloop) in HJ as [HJ _].
        congruence.
      * destruct Hrule as [(Hq & _ & Hs & He) [Hnil|Hge]]; [contradiction|].
        assert (st = 5%Z) by lia. subst st.
        exists e. split; [reflexivity|]. apply He. lia.
    + unfold Exhaustive.simulate_ntm.
      pose proof (ExhaustiveFacts.exhaustive_while_loop_rule ntm 5 P) as Hrule.
      assert (Hstep : forall queue steps explored,
                 P queue steps explored -> queue <> [] -> (steps < 5)%Z ->
                 Forall (fun c => Exhaustive.is_accept ntm c = false) queue ->
                 P (flat_map (Exhaustive.expand ntm) queue) (steps + 1)%Z
                   (explored ++ queue)).
      { unfold P. intros q s e (Hq & HJ & Hs & He) _ Hlt _.
        rewrite (flat_map_expand_looping ntm input_string q Hloop HJ).
        destruct (looping_level ntm input_string Hloop q Hq HJ) as [H1 H2].
        repeat split; auto; try lia.
        intros _ Happ. apply app_eq_nil in Happ as [_ ?]. contradiction. }
      specialize (Hrule Hstep (Z.to_nat 5) [initial ntm input_string] 0%Z []
                    HP0 ltac:(lia)).
      destruct (Exhaustive.while_loop _ _ _ _ _ _) as [e st|q e st| |];
        try contradiction.
      * destruct Hrule as (q0 & e0 & pre & c & post & HP & _ & Hq0 & _ & Hc & _).
        destruct HP as (_ & HJ & _). rewrite Hq0 in HJ.
        apply Forall_app in HJ as [_ HJ]. apply Forall_cons in HJ as [HJ _].
        apply (looping_not_terminal ntm input_string Hloop) in HJ as (_ & HJ & _).
        congruence.
      * destruct Hrule as [(Hq & _ & Hs & He) [Hnil|Hge]]; [contradiction|].
        assert (st = 5%Z) by lia. subst st.
        exists e. split; [reflexivity|]. apply He. lia.
Qed.

Lemma looper_self_loop : self_loop looper "a".
Proof.
  repeat split; try discriminate.
  - intros t [<-|[<-|[]]] _; reflexivity.
  - intros a [->|[<-|[]]].
    + exists (mkTransition "q0" "_" "q0" "_" "R"). simpl. auto.
    + exists (mkTransition "q0" "a" "q0" "a" "R"). simpl. auto.
Defined.

Lemma simulate_ntm_terminates_within_bound_witness :
  (exists explored,
      Eager.simulate_ntm looper "a" 5
      = Eager.Returned explored "timed out" 5 /\ explored <> []) /\
  (exists explored result steps,
      Eager.simulate_ntm looper "a" 3
      = Eager.Returned explored result steps /\ (steps <= 3)%Z).
Proof.
  destruct (simulate_ntm_terminates_within_bound looper "a") as [Hall Hfive].
  split.
  - apply Hfive. exact looper_self_loop.
  - destruct (Hall 3%Z) as [(e & r & st & He & _ & Hle) _].
    exists e, r, st. split; [exact He|]. apply Hle. lia.
Defined.

(** ** Branching accounting *)

Lemma total_app (l1 l2 : list nat) : total (l1 ++ l2) = total l1 + total l2.
Proof. unfold total. induction l1; simpl; lia. Qed.

Lemma length_flat_map_total {A B : Type} (f : A -> list B) (l : list A) :
  length (flat_map f l) = total (map (fun x => length (f x)) l).
Proof.
  induction l as [|a l IH]; simpl; [reflexivity|].
  rewrite length_app, IH. reflexivity.
Qed.

Lemma length_expand (ntm : Machine) (config : Configuration) :
  length (Exhaustive.expand ntm config) = Exhaustive.expanded_degree ntm config.
Proof.
  unfold Exhaustive.expand, Exhaustive.expanded_degree.
  destruct (String.eqb (state config) (reject_state ntm)); [reflexivity|].
  apply length_successors.
Qed.

(** A level that runs through explores its whole frontier and leaves the
    successors of that frontier as the next one. *)
Lemma eager_level_through (ntm : Machine) (q e q' e' : list Configuration) :
  Eager.for_range ntm (length q) q e = Eager.Next q' e' ->
  e' = e ++ q /\ q' = flat_map (successors ntm) q /\
  length q' = total (map (out_degree ntm) q).
Proof.
  intros H.
  destruct (EagerFacts.eager_for_range_cases ntm q e)
    as [[_ Heq]|(pre & c & post & _ & _ & _ & Heq)];
    rewrite Heq in H; [|discriminate].
  injection H as <- <-. repeat split.
  rewrite length_flat_map_total. f_equal. apply map_ext. intros c.
  apply length_successors.
Qed.

Lemma exhaustive_level_through (ntm : Machine) (q e q' e' : list Configuration) :
  Exhaustive.for_range ntm (length q) q e = Exhaustive.Next q' e' ->
  e' = e ++ q /\ q' = flat_map (Exhaustive.expand ntm) q /\
  length q' = total (map (Exhaustive.expanded_degree ntm) q).
Proof.
  intros H.
  destruct (ExhaustiveFacts.exhaustive_for_range_cases ntm q e)
    as [[_ Heq]|(pre & c & post & _ & _ & _ & Heq)];
    rewrite Heq in H; [|discriminate].
  injection H as <- <-. repeat split.
  rewrite length_flat_map_total. f_equal. apply map_ext. intros c.
  apply length_expand.
Qed.

(** The balance kept by the levels: what has been explored and what is
    queued add up to the initial configuration plus every successor made. *)
Lemma eager_levels_balance (ntm : Machine) (k : nat) :
  forall q e q' e',
    length e + length q = 1 + total (map (out_degree ntm) e) ->
    Eager.after_levels ntm k q e = Eager.Next q' e' ->
    length e' + length q' = 1 + total (map (out_degree ntm) e').
Proof.
  induction k as [|k IH]; intros q e q' e' Hbal H; simpl in H.
  - injection H as <- <-. exact Hbal.
  - destruct (Eager.for_range ntm (length q) q e) as [q1 e1| |] eqn:Hl;
      try discriminate.
    apply eager_level_through in Hl as (-> & _ & Hlen).
    apply (IH q1 (e ++ q)); [|exact H].
    rewrite length_app, map_app, total_app. lia.
Qed.

Lemma exhaustive_levels_balance (ntm : Machine) (k : nat) :
  forall q e q' e',
    length e + length q = 1 + total (map (Exhaustive.expanded_degree ntm) e) ->
    Exhaustive.after_levels ntm k q e = Exhaustive.Next q' e' ->
    length e' + length q'
    = 1 + total (map (Exhaustive.expanded_degree ntm) e').
Proof.
  induction k as [|k IH]; intros q e q' e' Hbal H; simpl in H.
  - injection H as <- <-. exact Hbal.
  - destruct (Exhaustive.for_range ntm (length q) q e) as [q1 e1| |] eqn:Hl;
      try discriminate.
    apply exhaustive_level_through in Hl as (-> & _ & Hlen).
    apply (IH q1 (e ++ q)); [|exact H].
    rewrite length_app, map_app, total_app. lia.
Qed.

(** The loop of [simulate_ntm] is the iteration of the levels: when it is
    left by its condition after [steps'] steps, its state is the one
    [after_levels] computes. *)
Lemma eager_while_loop_levels (ntm : Machine) (max_depth : Z) (fuel : nat) :
  forall q s e q' e' s',
    Eager.while_loop ntm max_depth fuel q s e = Eager.Stopped q' e' s' ->
    (s <= s')%Z /\
    Eager.after_levels ntm (Z.to_nat (s' - s)) q e = Eager.Next q' e'.
Proof.
  induction fuel as [|fuel IH]; intros q s e q' e' s' H;
    rewrite EagerFacts.eager_while_loop_unfold in H;
    destruct (negb (Nat.eqb (length q) 0) && (s <? max_depth)%Z);
    try discriminate;
    try (injection H as <- <- <-; rewrite Z.sub_diag; split; [lia|reflexivity]).
  destruct (Eager.for_range ntm (length q) q e) as [q1 e1| |] eqn:Hl;
    try discriminate.
  apply IH in H as [Hle H]. split; [lia|].
  replace (Z.to_nat (s' - s)) with (S (Z.to_nat (s' - (s + 1)))) by lia.
  simpl. now rewrite Hl.
Qed.

Lemma exhaustive_while_loop_levels (ntm : Machine) (max_depth : Z) (fuel : nat) :
  forall q s e q' e' s',
    Exhaustive.while_loop ntm max_depth fuel q s e
    = Exhaustive.Stopped q' e' s' ->
    (s <= s')%Z /\
    Exhaustive.after_levels ntm (Z.to_nat (s' - s)) q e
    = Exhaustive.Next q' e'.
Proof.
  induction fuel as [|fuel IH]; intros q s e q' e' s' H;
    rewrite ExhaustiveFacts.exhaustive_while_loop_unfold in H;
    destruct (negb (Nat.eqb (length q) 0) && (s <? max_depth)%Z);
    try discriminate;
    try (injection H as <- <- <-; rewrite Z.sub_diag; split; [lia|reflexivity]).
  destruct (Exhaustive.for_range ntm (length q) q e) as [q1 e1| |] eqn:Hl;
    try discriminate.
  apply IH in H as [Hle H]. split; [lia|].
  replace (Z.to_nat (s' - s)) with (S (Z.to_nat (s' - (s + 1)))) by lia.
  simpl. now rewrite Hl.
Qed.

(** C5 (as the code has it): let [k] levels have run through from the
    initial configuration, leaving [frontier] queued and [before] explored,
    and let level [k] run through as well.  Then the trace at the end of
    level [k] is [before] followed by [frontier]; the next frontier has as
    many configurations as the out-degrees of [frontier] add up to; and the
    trace counts 1, for the initial configuration, plus the out-degrees of
    all configurations processed in the levels before [k], not only in level
    [k - 1].  In the exhaustive variant a rejecting configuration is not
    expanded and counts for 0. *)
Theorem explored_count_sums_all_earlier_levels
    (ntm : Machine) (input_string : string) (k : nat) :
  (forall frontier before frontier' explored,
      Eager.after_levels ntm k [initial ntm input_string] []
      = Eager.Next frontier before ->
      Eager.for_range ntm (length frontier) frontier before
      = Eager.Next frontier' explored ->
      explored = before ++ frontier /\
      length frontier' = total (map (out_degree ntm) frontier) /\
      length explored = 1 + total (map (out_degree ntm) before)) /\
  (forall frontier before frontier' explored,
      Exhaustive.after_levels ntm k [initial ntm input_string] []
      = Exhaustive.Next frontier before ->
      Exhaustive.for_range ntm (length frontier) frontier before
      = Exhaustive.Next frontier' explored ->
      explored = before ++ frontier /\
      length frontier' = total (map (Exhaustive.expanded_degree ntm) frontier) /\
      length explored
      = 1 + total (map (Exhaustive.expanded_degree ntm) before)).
Proof.
  split; intros frontier before frontier' explored Hk Hl.
  - apply eager_levels_balance in Hk; [|reflexivity].
    apply eager_level_through in Hl as (-> & _ & Hlen).
    repeat split; auto. rewrite length_app. lia.
  - apply exhaustive_levels_balance in Hk; [|reflexivity].
    apply exhaustive_level_through in Hl as (-> & _ & Hlen).
    repeat split; auto. rewrite length_app. lia.
Qed.

Lemma explored_count_sums_all_earlier_levels_witness :
  length [mkConfiguration "" "q0" "a"; mkConfiguration "a" "q0" "_";
          mkConfiguration "a_" "q0" "_"]
  = 1 + total (map (out_degree looper)
                 [mkConfiguration "" "q0" "a"; mkConfiguration "a" "q0" "_"]).
Proof.
  destruct (explored_count_sums_all_earlier_levels looper "a" 2) as [He _].
  destruct (He [mkConfiguration "a_" "q0" "_"]
              [mkConfiguration "" "q0" "a"; mkConfiguration "a" "q0" "_"]
              [mkConfiguration "a__" "q0" "_"]
              [mkConfiguration "" "q0" "a"; mkConfiguration "a" "q0" "_";
               mkConfiguration "a_" "q0" "_"]
              eq_refl eq_refl) as (_ & _ & Hcount).
  exact Hcount.
Defined.

(** C5 as stated fails: on [looper] with input [a], at the end of level 2
    three configurations have been explored, while the out-degrees of the
    one configuration of level 1 add up to 1, plus 1 makes 2.  And in the
    exhaustive variant a rejecting configuration with a matching transition
    leaves nothing behind: on [reject_exit] level 1 holds one configuration
    of out-degree 1 and level 2 is empty. *)
Lemma explored_count_is_not_last_level_sum :
  let level1 := [mkConfiguration "a" "q0" "_"] in
  let trace2 := [mkConfiguration "" "q0" "a"; mkConfiguration "a" "q0" "_";
                 mkConfiguration "a_" "q0" "_"] in
  let rejected := [mkConfiguration "a" "qrej" "_"] in
  (Eager.after_levels looper 1 [initial looper "a"] []
   = Eager.Next level1 [mkConfiguration "" "q0" "a"] /\
   Eager.after_levels looper 3 [initial looper "a"] []
   = Eager.Next [mkConfiguration "a__" "q0" "_"] trace2 /\
   Eager.simulate_ntm looper "a" 3 = Eager.Returned trace2 "timed out" 3 /\
   Exhaustive.after_levels looper 1 [initial looper "a"] []
   = Exhaustive.Next level1 [mkConfiguration "" "q0" "a"] /\
   Exhaustive.after_levels looper 3 [initial looper "a"] []
   = Exhaustive.Next [mkConfiguration "a__" "q0" "_"] trace2 /\
   Exhaustive.simulate_ntm looper "a" 3
   = Exhaustive.Returned
       "Execution stopped after 3 steps (max depth reached)." trace2 /\
   length trace2 = 3 /\
   total (map (out_degree looper) level1) + 1 = 2 /\
   length trace2 <> total (map (out_degree looper) level1) + 1) /\
  (Exhaustive.after_levels reject_exit 1 [initial reject_exit "a"] []
   = Exhaustive.Next rejected [mkConfiguration "" "q0" "a"] /\
   Exhaustive.after_levels reject_exit 2 [initial reject_exit "a"] []
   = Exhaustive.Next [] [mkConfiguration "" "q0" "a";
                         mkConfiguration "a" "qrej" "_"] /\
   total (map (out_degree reject_exit) rejected) = 1).
Proof. cbv zeta. repeat split. discriminate. Qed.

(** ** The nondeterminism metric *)

Lemma size_state_set (explored : list Configuration) :
  size (Exhaustive.state_set explored) = Exhaustive.distinct_states explored.
Proof.
  unfold Exhaustive.state_set, Exhaustive.distinct_states.
  rewrite <- (size_list_to_set (C := gset string) (remove_dups _))
    by apply NoDup_remove_dups.
  f_equal. apply set_eq. intros x.
  now rewrite !elem_of_list_to_set, elem_of_remove_dups.
Qed.

Lemma distinct_states_pos (explored : list Configuration) :
  explored <> [] -> 0 < Exhaustive.distinct_states explored.
Proof.
  intros Hne. destruct explored as [|c explored]; [contradiction|].
  unfold Exhaustive.distinct_states.
  assert (Hin : state c ∈ remove_dups (map state (c :: explored))).
  { apply elem_of_remove_dups. simpl. left. }
  destruct (remove_dups _); [inversion Hin|simpl; lia].
Qed.



(** ** The blank at the end of [right] *)

Lemma step_right_blank (config : Configuration) (t : Transition) :
  exists s, right (step config t) = s +:+ "_".
Proof.
  unfold step. destruct (String.eqb (move_direction t) "L"); simpl.
  - destruct (head_symbol_char config) as [a ->]. unfold new_right.
    eexists (String a _). reflexivity.
  - unfold new_right. eauto.
Qed.

Lemma not_empty_snoc (s : string) (a : ascii) : s +:+ String a "" <> "".
Proof. destruct s; discriminate. Qed.

(** The configurations of a run: the initial one, or one whose [right] ends
    with a blank. *)
Lemma blank_ended_level (ntm : Machine) (c0 : Configuration)
    (f : Configuration -> list Configuration) (queue : list Configuration) :
  (forall c c', In c' (f c) -> In c' (successors ntm c)) ->
  Forall (fun c => c = c0 \/ exists s, right c = s +:+ "_") (flat_map f queue).
Proof.
  intros Hf. apply Forall_forall. intros c' Hc'.
  apply list_elem_of_In, in_flat_map in Hc' as (c & _ & Hc').
  apply Hf in Hc'. unfold successors in Hc'.
  apply in_map_iff in Hc' as (t & <- & _). right. apply step_right_blank.
Qed.

(** C10: every successor ends its [right] with a blank, so it is not empty;
    and in the trace of either variant every configuration is the initial
    one or has such a [right], so that a configuration with an empty [right]
    can only be the initial configuration of a run on the empty input. *)
Theorem successors_right_ends_with_blank
    (ntm : Machine) (input_string : string) (max_depth : Z) :
  (forall config t c',
      successor config t = Some c' ->
      right c' <> "" /\ exists s, right c' = s +:+ "_") /\
  (forall explored result steps c,
      Eager.simulate_ntm ntm input_string max_depth
      = Eager.Returned explored result steps ->
      In c explored ->
      (c = initial ntm input_string \/ exists s, right c = s +:+ "_") /\
      (right c = "" -> input_string = "" /\ c = initial ntm "")) /\
  (forall printed explored c,
      Exhaustive.simulate_ntm ntm input_string max_depth
      = Exhaustive.Returned printed explored ->
      In c explored ->
      (c = initial ntm input_string \/ exists s, right c = s +:+ "_") /\
      (right c = "" -> input_string = "" /\ c = initial ntm "")).
Proof.
  set (I := fun c => c = initial ntm input_string \/
                     exists s, right c = s +:+ "_").
  set (P := fun (q : list Configuration) (_ : Z) (e : list Configuration) =>
              Forall I q /\ Forall I e).
  assert (HP0 : P [initial ntm input_string] 0%Z []).
  { split; repeat constructor. }
  assert (Hempty : forall c, I c -> right c = "" ->
                             input_string = "" /\ c = initial ntm "").
  { intros c [->|[s Hs]] Hr.
    - simpl in Hr. subst input_string. auto.
    - rewrite Hs in Hr. now apply not_empty_snoc in Hr. }
  split; [|split].
  - intros config t c' Hs. rewrite successor_step in Hs. injection Hs as <-.
    destruct (step_right_blank config t) as [s Hs]. rewrite Hs.
    split; [apply not_empty_snoc|eauto].
  - intros explored result steps c Hrun Hin.
    unfold Eager.simulate_ntm in Hrun.
    pose proof (EagerFacts.eager_while_loop_rule ntm max_depth P) as Hrule.
    assert (Hstep : forall queue steps explored,
               P queue steps explored -> queue <> [] ->
               (steps < max_depth)%Z ->
               Forall (fun c => Eager.is_terminal ntm c = false) queue ->
               P (flat_map (successors ntm) queue) (steps + 1)%Z
                 (explored ++ queue)).
    { intros q s e [Hq He] _ _ _. split.
      - apply (blank_ended_level ntm). auto.
      - apply Forall_app. auto. }
    specialize (Hrule Hstep (Z.to_nat max_depth) [initial ntm input_string]
                  0%Z [] HP0 ltac:(lia)).
    assert (HI : I c).
    { destruct (Eager.while_loop _ _ _ _ _ _) as [e r st|q e st| |];
        try contradiction; injection Hrun as -> _ _.
      - destruct Hrule as (q0 & e0 & pre & x & post & [Hq He] & _ & -> & _ & _ & -> & _).
        apply Forall_app in Hq as [Hpre Hx].
        apply Forall_cons in Hx as [Hx _].
        assert (Hall : Forall I (e0 ++ pre ++ [x])).
        { repeat (apply Forall_app; split); auto. }
        rewrite Forall_forall in Hall. apply Hall. now apply list_elem_of_In.
      - destruct Hrule as [[_ He] _].
        rewrite Forall_forall in He. apply He. now apply list_elem_of_In. }
    split; [exact HI|now apply Hempty].
  - intros printed explored c Hrun Hin.
    unfold Exhaustive.simulate_ntm in Hrun.
    pose proof (ExhaustiveFacts.exhaustive_while_loop_rule ntm max_depth P)
      as Hrule.
    assert (Hstep : forall queue steps explored,
               P queue steps explored -> queue <> [] ->
               (steps < max_depth)%Z ->
               Forall (fun c => Exhaustive.is_accept ntm c = false) queue ->
               P (flat_map (Exhaustive.expand ntm) queue) (steps + 1)%Z
                 (explored ++ queue)).
    { intros q s e [Hq He] _ _ _. split.
      - apply (blank_ended_level ntm). intros x x'. unfold Exhaustive.expand.
        destruct (String.eqb (state x) (reject_state ntm)); [intros []|auto].
      - apply Forall_app. auto. }
    specialize (Hrule Hstep (Z.to_nat max_depth) [initial ntm input_string]
                  0%Z [] HP0 ltac:(lia)).
    assert (HI : I c).
    { destruct (Exhaustive.while_loop _ _ _ _ _ _) as [e st|q e st| |];
        try contradiction; injection Hrun as _ ->.
      - destruct Hrule as (q0 & e0 & pre & x & post & [Hq He] & _ & -> & _ & _ & ->).
        apply Forall_app in Hq as [Hpre Hx].
        apply Forall_cons in Hx as [Hx _].
        assert (Hall : Forall I (e0 ++ pre ++ [x])).
        { repeat (apply Forall_app; split); auto. }
        rewrite Forall_forall in Hall. apply Hall. now apply list_elem_of_In.
      - destruct Hrule as [[_ He] _].
        rewrite Forall_forall in He. apply He. now apply list_elem_of_In. }
    split; [exact HI|now apply Hempty].
Qed.

Lemma successors_right_ends_with_blank_witness :
  ("" = "" /\ mkConfiguration "" "q0" "" = initial looper "") /\
  right (mkConfiguration "_" "q0" "_") <> "".
Proof.
  destruct (successors_right_ends_with_blank looper "" 1) as (Hs & He & _).
  split.
  - apply (He [mkConfiguration "" "q0" ""] "timed out" 1%Z
              (mkConfiguration "" "q0" "")); [reflexivity|left; reflexivity|].
    reflexivity.
  - apply (Hs (mkConfiguration "" "q0" "")
              (mkTransition "q0" "_" "q0" "_" "R")). reflexivity.
Defined.

(** * Further properties *)

(** ** Reading a machine *)

Lemma parse_transition_Some (line : list string) (t : Transition) :
  parse_transition line = Some t <->
  exists rest,
    line = current_state t :: input_symbol t :: next_state t ::
           write_symbol t :: move_direction t :: rest.
Proof.
  split.
  - destruct line as [|a [|b [|c [|d [|e rest]]]]]; try discriminate.
    intros [= <-]. exists rest. reflexivity.
  - intros [rest ->]. destruct t. reflexivity.
Qed.

Lemma parse_transition_is_Some (line : list string) :
  is_Some (parse_transition line) <-> 5 <= length line.
Proof.
  split.
  - intros [t Ht]. apply parse_transition_Some in Ht as [rest ->].
    simpl. lia.
  - destruct line as [|a [|b [|c [|d [|e rest]]]]]; simpl; try lia.
    intros _. eexists. reflexivity.
Qed.

Lemma parse_ntm_file_seven (n0 n4 n5 n6 : string)
    (r0 r1 r2 r3 r4 r5 r6 : list string) (rest : list (list string)) :
  parse_ntm_file
    ((n0 :: r0) :: r1 :: r2 :: r3 :: (n4 :: r4) :: (n5 :: r5) :: (n6 :: r6)
     :: rest)
  = match mapM parse_transition rest with
    | Some ts => Some (mkMachine n0 r1 r2 r3 n4 n5 n6 ts)
    | None => None
    end.
Proof. reflexivity. Qed.

(** X1: The rows are accepted exactly when there are at least seven of them,
    rows 0, 4, 5 and 6 have a first field, and every further row has five
    fields; anything else ends in an [IndexError]. *)
Theorem parse_ntm_file_accepts (lines : list (list string)) :
  is_Some (parse_ntm_file lines) <->
  exists r0 r1 r2 r3 r4 r5 r6 rest,
    lines = r0 :: r1 :: r2 :: r3 :: r4 :: r5 :: r6 :: rest /\
    r0 <> [] /\ r4 <> [] /\ r5 <> [] /\ r6 <> [] /\
    Forall (fun row => 5 <= length row) rest.
Proof.
  split.
  - intros [m Hm]. unfold parse_ntm_file in Hm.
    destruct lines as [|r0 lines]; [simpl in Hm; discriminate|].
    destruct r0 as [|n0 r0]; [simpl in Hm; discriminate|].
    destruct lines as [|r1 lines]; [simpl in Hm; discriminate|].
    destruct lines as [|r2 lines]; [simpl in Hm; discriminate|].
    destruct lines as [|r3 lines]; [simpl in Hm; discriminate|].
    destruct lines as [|r4 lines]; [simpl in Hm; discriminate|].
    destruct r4 as [|n4 r4]; [simpl in Hm; discriminate|].
    destruct lines as [|r5 lines]; [simpl in Hm; discriminate|].
    destruct r5 as [|n5 r5]; [simpl in Hm; discriminate|].
    destruct lines as [|r6 rest]; [simpl in Hm; discriminate|].
    destruct r6 as [|n6 r6]; [simpl in Hm; discriminate|].
    exists (n0 :: r0), r1, r2, r3, (n4 :: r4), (n5 :: r5), (n6 :: r6), rest.
    repeat split; try discriminate.
    fold (parse_ntm_file
            ((n0 :: r0) :: r1 :: r2 :: r3 :: (n4 :: r4) :: (n5 :: r5)
             :: (n6 :: r6) :: rest)) in Hm.
    rewrite parse_ntm_file_seven in Hm.
    destruct (mapM parse_transition rest) as [ts|] eqn:Hts; [|discriminate].
    assert (Hall : Forall (is_Some ∘ parse_transition) rest)
      by (apply mapM_is_Some; eauto).
    eapply Forall_impl; [exact Hall|].
    intros row Hrow. now apply parse_transition_is_Some.
  - intros (r0 & r1 & r2 & r3 & r4 & r5 & r6 & rest & -> & H0 & H4 & H5 & H6 & Hrest).
    destruct r0 as [|n0 r0]; [contradiction|].
    destruct r4 as [|n4 r4]; [contradiction|].
    destruct r5 as [|n5 r5]; [contradiction|].
    destruct r6 as [|n6 r6]; [contradiction|].
    assert (Hts : is_Some (mapM parse_transition rest)).
    { apply mapM_is_Some. eapply Forall_impl; [exact Hrest|].
      intros row Hrow. now apply parse_transition_is_Some. }
    destruct Hts as [ts Hts]. rewrite parse_ntm_file_seven, Hts.
    eexists. reflexivity.
Qed.

(** X2: What an accepted file yields: the names are the first fields of rows 0,
    4, 5 and 6, rows 1 to 3 are taken whole, and there is one transition per
    further row, made of its first five fields in order; further fields of a
    row are dropped. *)
Theorem parse_ntm_file_fields (lines : list (list string)) (m : Machine) :
  parse_ntm_file lines = Some m ->
  lines !! 0 ≫= (.!! 0) = Some (name m) /\
  lines !! 1 = Some (states m) /\
  lines !! 2 = Some (input_alphabet m) /\
  lines !! 3 = Some (tape_alphabet m) /\
  lines !! 4 ≫= (.!! 0) = Some (start_state m) /\
  lines !! 5 ≫= (.!! 0) = Some (accept_state m) /\
  lines !! 6 ≫= (.!! 0) = Some (reject_state m) /\
  length (transitions m) = length lines - 7 /\
  (forall i row,
      lines !! (7 + i) = Some row ->
      exists t, transitions m !! i = Some t /\
                take 5 row = transition_row t).
Proof.
  unfold parse_ntm_file. intros H.
  destruct (lines !! 0 ≫= (.!! 0)) as [nm|]; [|discriminate].
  destruct (lines !! 1) as [sts|]; [|discriminate].
  destruct (lines !! 2) as [ia|]; [|discriminate].
  destruct (lines !! 3) as [ta|]; [|discriminate].
  destruct (lines !! 4 ≫= (.!! 0)) as [ss|]; [|discriminate].
  destruct (lines !! 5 ≫= (.!! 0)) as [acc|]; [|discriminate].
  destruct (lines !! 6 ≫= (.!! 0)) as [rej|]; [|discriminate].
  simpl in H.
  destruct (mapM parse_transition (drop 7 lines)) as [ts|] eqn:Hts;
    [|discriminate].
  injection H as <-. simpl. repeat split.
  - apply length_mapM in Hts. rewrite length_drop in Hts. lia.
  - intros i row Hrow. apply mapM_Some in Hts.
    change (lines !! (7 + i) = Some row) in Hrow.
    rewrite <- lookup_drop in Hrow.
    destruct (Forall2_lookup_l _ _ _ _ _ Hts Hrow) as (t & Ht & Hp).
    exists t. split; [exact Ht|].
    apply parse_transition_Some in Hp as [rest ->]. reflexivity.
Qed.

Lemma parse_ntm_file_fields_witness :
  length (transitions looper) = length (machine_rows looper) - 7.
Proof.
  apply (parse_ntm_file_fields (machine_rows looper) looper). reflexivity.
Defined.

Lemma mapM_parse_rows (extra : list string) (ts : list Transition) :
  mapM parse_transition (map (fun t => transition_row t ++ extra) ts)
  = Some ts.
Proof.
  induction ts as [|t ts IH]; [reflexivity|].
  destruct t. simpl. simpl in IH. rewrite IH. reflexivity.
Qed.

(** X3: A machine written out row by row is read back unchanged, also when its
    transition rows carry further fields. *)
Theorem parse_ntm_file_machine_rows (m : Machine) :
  parse_ntm_file (machine_rows m) = Some m /\
  (forall extra,
      parse_ntm_file
        ([name m] :: states m :: input_alphabet m :: tape_alphabet m ::
         [start_state m] :: [accept_state m] :: [reject_state m] ::
         map (fun t => transition_row t ++ extra) (transitions m))
      = Some m).
Proof.
  split.
  - unfold machine_rows. rewrite parse_ntm_file_seven.
    pose proof (mapM_parse_rows [] (transitions m)) as H.
    rewrite (map_ext _ transition_row) in H
      by (intros t; apply app_nil_r).
    rewrite H. destruct m. reflexivity.
  - intros extra. rewrite parse_ntm_file_seven, mapM_parse_rows.
    destruct m. reflexivity.
Qed.

(** ** Breadth-first order and reachability *)

Lemma successor_in_successors (ntm : Machine) (c c' : Configuration)
    (t : Transition) :
  In t (transitions ntm) -> matches c t = true -> successor c t = Some c' ->
  In c' (successors ntm c).
Proof.
  intros Hin Hm Hs. rewrite successor_step in Hs. injection Hs as <-.
  unfold successors. apply in_map. apply filter_In. auto.
Qed.

Lemma in_successors_inv (ntm : Machine) (c c' : Configuration) :
  In c' (successors ntm c) ->
  exists t, In t (transitions ntm) /\ matches c t = true /\
            successor c t = Some c'.
Proof.
  unfold successors. intros H. apply in_map_iff in H as (t & <- & Ht).
  apply filter_In in Ht as [Hin Hm]. exists t.
  repeat split; auto. apply successor_step.
Qed.

(** The frontier at distance [n] holds exactly the configurations reached
    by [n] transitions. *)
Lemma frontier_reach_in (ntm : Machine) (c0 c : Configuration) (n : nat) :
  In c (frontier ntm c0 n) <-> reach_in ntm c0 n c.
Proof.
  split.
  - revert c. induction n as [|n IH]; intros c H; simpl in H.
    + destruct H as [<-|[]]. constructor.
    + apply in_flat_map in H as (c1 & H1 & H).
      apply in_successors_inv in H as (t & Hin & Hm & Hs).
      eapply reach_in_S; eauto.
  - induction 1 as [|n c1 t c' _ IH Hin Hm Hs]; simpl; [auto|].
    apply in_flat_map. exists c1. split; [exact IH|].
    eapply successor_in_successors; eauto.
Qed.

Lemma frontier_empty_later (ntm : Machine) (c0 : Configuration) (n m : nat) :
  frontier ntm c0 n = [] -> n <= m -> frontier ntm c0 m = [].
Proof.
  intros Hn Hle. induction Hle as [|m _ IH]; [exact Hn|].
  simpl. rewrite IH. reflexivity.
Qed.

Lemma in_levels_before (ntm : Machine) (c0 c : Configuration) (n : nat) :
  In c (levels_before ntm c0 n) <->
  exists k, k < n /\ In c (frontier ntm c0 k).
Proof.
  induction n as [|n IH]; simpl.
  - split; [intros []|intros (k & Hk & _); lia].
  - rewrite in_app_iff, IH. split.
    + intros [(k & Hk & H)|H]; [exists k|exists n]; split; auto; lia.
    + intros (k & Hk & H). destruct (Nat.eq_dec k n) as [->|Hne]; [auto|].
      left. exists k. split; [lia|exact H].
Qed.

(** A level of the eager variant that runs through met no terminal
    configuration. *)
Lemma eager_level_through_live (ntm : Machine)
    (q e q' e' : list Configuration) :
  Eager.for_range ntm (length q) q e = Eager.Next q' e' ->
  Forall (fun c => Eager.is_terminal ntm c = false) q /\
  e' = e ++ q /\ q' = flat_map (successors ntm) q.
Proof.
  intros H.
  destruct (EagerFacts.eager_for_range_cases ntm q e)
    as [[Hall Heq]|(pre & c & post & _ & _ & _ & Heq)];
    rewrite Heq in H; [|discriminate].
  injection H as <- <-. auto.
Qed.

(** Levels that run through walk along the frontiers. *)
Lemma eager_after_levels_frontier (ntm : Machine) (c0 : Configuration)
    (k : nat) :
  forall n q' e',
    Eager.after_levels ntm k (frontier ntm c0 n) (levels_before ntm c0 n)
    = Eager.Next q' e' ->
    Forall (fun c => Eager.is_terminal ntm c = false)
      (levels_before ntm c0 n) ->
    q' = frontier ntm c0 (n + k) /\
    e' = levels_before ntm c0 (n + k) /\
    Forall (fun c => Eager.is_terminal ntm c = false) e'.
Proof.
  induction k as [|k IH]; intros n q' e' H Hlive; simpl in H.
  - injection H as <- <-. rewrite Nat.add_0_r. auto.
  - destruct (Eager.for_range ntm _ _ _) as [q1 e1| |] eqn:Hl;
      try discriminate.
    apply eager_level_through_live in Hl as (Hq & -> & ->).
    replace (n + S k) with (S n + k) by lia.
    apply (IH (S n)); [exact H|]. simpl. apply Forall_app. auto.
Qed.

(** How the loop of the eager variant is left, in terms of the levels. *)
Lemma eager_while_loop_exit (ntm : Machine) (max_depth : Z) (fuel : nat) :
  forall q s e,
    match Eager.while_loop ntm max_depth fuel q s e with
    | Eager.Stopped q' e' s' =>
        (s <= s')%Z /\ (q' = [] \/ (max_depth <= s')%Z) /\
        Eager.after_levels ntm (Z.to_nat (s' - s)) q e = Eager.Next q' e'
    | Eager.Halted e' r s' =>
        (s <= s' < max_depth)%Z /\
        exists q1 e1,
          Eager.after_levels ntm (Z.to_nat (s' - s)) q e = Eager.Next q1 e1 /\
          Eager.for_range ntm (length q1) q1 e1 = Eager.Return e' r
    | _ => True
    end.
Proof.
  induction fuel as [|fuel IH]; intros q s e;
    rewrite EagerFacts.eager_while_loop_unfold.
  - destruct q as [|c q]; simpl.
    + rewrite Z.sub_diag. repeat split; auto; lia.
    + destruct (Z.ltb_spec s max_depth); [exact I|].
      rewrite Z.sub_diag. repeat split; auto; lia.
  - destruct q as [|c q]; [simpl; rewrite Z.sub_diag; repeat split; auto; lia|].
    destruct (Z.ltb_spec s max_depth) as [Hlt|Hge];
      [|simpl; rewrite Z.sub_diag; repeat split; auto; lia].
    cbn [length Nat.eqb negb andb].
    change (S (length q)) with (length (c :: q)).
    destruct (Eager.for_range ntm (length (c :: q)) (c :: q) e)
      as [q1 e1|e1 r|] eqn:Hl; [| |exact I].
    + specialize (IH q1 (s + 1)%Z e1).
      destruct (Eager.while_loop ntm max_depth fuel q1 (s + 1) e1)
        as [e' r s'|q' e' s'| |]; auto.
      * destruct IH as (Hs & q2 & e2 & Hk & Hr). split; [lia|].
        exists q2, e2. split; [|exact Hr].
        replace (Z.to_nat (s' - s)) with (S (Z.to_nat (s' - (s + 1)))) by lia.
        cbn [Eager.after_levels]. now rewrite Hl.
      * destruct IH as (Hs & Hend & Hk). repeat split; [lia|exact Hend|].
        replace (Z.to_nat (s' - s)) with (S (Z.to_nat (s' - (s + 1)))) by lia.
        cbn [Eager.after_levels]. now rewrite Hl.
    + split; [lia|]. exists (c :: q), e. rewrite Z.sub_diag. auto.
Qed.

(** The shape of every run of the eager variant: the levels before the last
    step count ran through without a terminal configuration, and the trace
    is those levels, followed, when the run halts, by the part of the next
    frontier up to its first terminal configuration. *)
Lemma eager_run_shape (ntm : Machine) (input_string : string) (max_depth : Z)
    (e : list Configuration) (r : string) (s : Z) :
  Eager.simulate_ntm ntm input_string max_depth = Eager.Returned e r s ->
  let c0 := initial ntm input_string in
  let n := Z.to_nat s in
  (0 <= s)%Z /\
  Forall (fun c => Eager.is_terminal ntm c = false) (levels_before ntm c0 n) /\
  ((r = "timed out" /\ e = levels_before ntm c0 n /\
    (frontier ntm c0 n = [] \/ (max_depth <= s)%Z)) \/
   ((s < max_depth)%Z /\
    exists pre c post,
      frontier ntm c0 n = pre ++ c :: post /\
      Forall (fun c => Eager.is_terminal ntm c = false) pre /\
      Eager.is_terminal ntm c = true /\
      e = levels_before ntm c0 n ++ pre ++ [c] /\
      r = Eager.verdict ntm c)).
Proof.
  intros H c0 n. unfold Eager.simulate_ntm in H.
  pose proof (eager_while_loop_exit ntm max_depth (Z.to_nat max_depth)
                [c0] 0%Z []) as Hexit.
  fold c0 in H.
  destruct (Eager.while_loop ntm max_depth (Z.to_nat max_depth) [c0] 0 [])
    as [e' r' s'|q' e' s'| |]; try discriminate; injection H as -> <- ->.
  - destruct Hexit as (Hs & q1 & e1 & Hk & Hr).
    rewrite Z.sub_0_r in Hk. fold n in Hk.
    apply (eager_after_levels_frontier ntm c0 n 0) in Hk
      as (-> & -> & Hlive); [|constructor].
    simpl in *. repeat split; [lia|exact Hlive|]. right. split; [lia|].
    destruct (EagerFacts.eager_for_range_cases ntm (frontier ntm c0 n)
                (levels_before ntm c0 n))
      as [[_ Heq]|(pre & c & post & Hq & Hpre & Hc & Heq)];
      rewrite Heq in Hr; [discriminate|].
    injection Hr as <- <-. exists pre, c, post. auto.
  - destruct Hexit as (Hs & Hend & Hk).
    rewrite Z.sub_0_r in Hk. fold n in Hk.
    apply (eager_after_levels_frontier ntm c0 n 0) in Hk
      as (-> & -> & Hlive); [|constructor].
    simpl in *. repeat split; [lia|exact Hlive|]. left. auto.
Qed.

(** X4: A run of the eager variant that halts does so at a terminal
    configuration reached by exactly [steps] transitions, reports its
    verdict, and no terminal configuration is reached by fewer transitions:
    breadth-first search finds a shallowest halting computation. *)
Theorem eager_halts_at_shallowest_terminal (ntm : Machine)
    (input_string : string) (max_depth : Z)
    (explored : list Configuration) (result : string) (steps : Z) :
  Eager.simulate_ntm ntm input_string max_depth
  = Eager.Returned explored result steps ->
  result <> "timed out" ->
  exists before config,
    explored = before ++ [config] /\
    Eager.is_terminal ntm config = true /\
    result = Eager.verdict ntm config /\
    reach_in ntm (initial ntm input_string) (Z.to_nat steps) config /\
    (forall n c,
        n < Z.to_nat steps ->
        reach_in ntm (initial ntm input_string) n c ->
        Eager.is_terminal ntm c = false).
Proof.
  intros Hrun Hr.
  destruct (eager_run_shape _ _ _ _ _ _ Hrun)
    as (Hs & Hlive & [(-> & _)|(Hlt & pre & c & post & Hq & Hpre & Hc & -> & ->)]);
    [contradiction|].
  exists (levels_before ntm (initial ntm input_string) (Z.to_nat steps) ++ pre), c.
  rewrite <- app_assoc. repeat split; auto.
  - apply frontier_reach_in. rewrite Hq. apply in_app_iff. right. left.
    reflexivity.
  - intros n c' Hn Hreach. apply frontier_reach_in in Hreach.
    rewrite Forall_forall in Hlive. apply Hlive. apply list_elem_of_In.
    apply in_levels_before. eauto.
Qed.

Lemma eager_halts_at_shallowest_terminal_witness :
  reach_in a_plus (initial a_plus "aaa") 4 (mkConfiguration "aaa_" "qacc" "___").
Proof.
  destruct (eager_halts_at_shallowest_terminal a_plus "aaa" 50
              [mkConfiguration "" "q0" "aaa"; mkConfiguration "a" "q1" "aa_";
               mkConfiguration "aa" "q1" "a__"; mkConfiguration "aaa" "q1" "___";
               mkConfiguration "aaa_" "qacc" "___"]
              "accept" 4)
    as (before & config & He & _ & _ & Hreach & _).
  - reflexivity.
  - discriminate.
  - change [mkConfiguration "" "q0" "aaa"; mkConfiguration "a" "q1" "aa_";
            mkConfiguration "aa" "q1" "a__"; mkConfiguration "aaa" "q1" "___";
            mkConfiguration "aaa_" "qacc" "___"]
      with ([mkConfiguration "" "q0" "aaa"; mkConfiguration "a" "q1" "aa_";
             mkConfiguration "aa" "q1" "a__"; mkConfiguration "aaa" "q1" "___"]
            ++ [mkConfiguration "aaa_" "qacc" "___"]) in He.
    apply app_inj_tail in He as [_ <-]. exact Hreach.
Defined.

(** X5: A run of the eager variant that stops below its depth bound has
    explored every configuration the machine can reach from the initial one:
    each is reached by fewer than [steps] transitions, stands in the trace
    and is not terminal.  The machine neither accepts nor rejects the
    input. *)
Theorem eager_exhaustion_is_complete (ntm : Machine)
    (input_string : string) (max_depth : Z)
    (explored : list Configuration) (steps : Z) :
  Eager.simulate_ntm ntm input_string max_depth
  = Eager.Returned explored "timed out" steps ->
  (steps < max_depth)%Z ->
  forall n c,
    reach_in ntm (initial ntm input_string) n c ->
    n < Z.to_nat steps /\ In c explored /\ Eager.is_terminal ntm c = false.
Proof.
  intros Hrun Hlt n c Hreach.
  destruct (eager_run_shape _ _ _ _ _ _ Hrun)
    as (Hs & Hlive & [(_ & -> & [Hnil|Hge])|(_ & pre & x & post & _ & _ & Hx & _ & Hv)]).
  - apply frontier_reach_in in Hreach.
    assert (Hn : n < Z.to_nat steps).
    { destruct (Nat.lt_ge_cases n (Z.to_nat steps)) as [|Hge]; [assumption|].
      rewrite (frontier_empty_later _ _ _ _ Hnil Hge) in Hreach.
      destruct Hreach. }
    assert (Hin : In c (levels_before ntm (initial ntm input_string)
                          (Z.to_nat steps)))
      by (apply in_levels_before; eauto).
    repeat split; auto.
    rewrite Forall_forall in Hlive. apply Hlive. now apply list_elem_of_In.
  - lia.
  - unfold Eager.verdict in Hv.
    destruct (String.eqb (state x) (accept_state ntm)); discriminate.
Qed.

Lemma eager_exhaustion_is_complete_witness :
  In (mkConfiguration "a" "q1" "_")
    [mkConfiguration "" "q0" "a"; mkConfiguration "a" "q1" "_"].
Proof.
  destruct (eager_exhaustion_is_complete rewriter "a" 5
              [mkConfiguration "" "q0" "a"; mkConfiguration "a" "q1" "_"] 2
              eq_refl eq_refl 1 (mkConfiguration "a" "q1" "_"))
    as (_ & Hin & _).
  - eapply (reach_in_S rewriter _ 0 (mkConfiguration "" "q0" "a")
              (mkTransition "q0" "a" "q1" "b" "R")).
    + constructor.
    + left. reflexivity.
    + reflexivity.
    + reflexivity.
  - exact Hin.
Defined.

(** ** Invariants of the trace *)

(** A property of the initial configuration that every transition keeps
    holds all along the trace, in both variants. *)
Section TraceInvariant.

Variable ntm : Machine.
Variable input_string : string.
Variable Inv : Configuration -> Prop.
Hypothesis Inv_initial : Inv (initial ntm input_string).
Hypothesis Inv_successor :
  forall c c', Inv c -> In c' (successors ntm c) -> Inv c'.

Lemma invariant_level (f : Configuration -> list Configuration)
    (queue : list Configuration) :
  (forall c c', In c' (f c) -> In c' (successors ntm c)) ->
  Forall Inv queue -> Forall Inv (flat_map f queue).
Proof.
  intros Hf Hq. apply Forall_forall. intros c' Hc'.
  apply list_elem_of_In, in_flat_map in Hc' as (c & Hc & Hc').
  rewrite Forall_forall in Hq.
  apply (Inv_successor c); [apply Hq; now apply list_elem_of_In|auto].
Qed.

Lemma eager_trace_invariant (max_depth : Z) :
  Forall Inv (Eager.trace (Eager.simulate_ntm ntm input_string max_depth)).
Proof.
  unfold Eager.simulate_ntm.
  pose proof (EagerFacts.eager_while_loop_rule ntm max_depth
                (fun q _ e => Forall Inv q /\ Forall Inv e)) as Hrule.
  assert (Hstep : forall queue steps explored,
             Forall Inv queue /\ Forall Inv explored -> queue <> [] ->
             (steps < max_depth)%Z ->
             Forall (fun c => Eager.is_terminal ntm c = false) queue ->
             Forall Inv (flat_map (successors ntm) queue) /\
             Forall Inv (explored ++ queue)).
  { intros q s e [Hq He] _ _ _. split.
    - apply invariant_level; auto.
    - apply Forall_app. auto. }
  specialize (Hrule Hstep (Z.to_nat max_depth) [initial ntm input_string]
                0%Z [] ltac:(split; repeat constructor; exact Inv_initial)
                ltac:(lia)).
  destruct (Eager.while_loop _ _ _ _ _ _) as [e r st|q e st| |]; simpl;
    try constructor.
  - destruct Hrule as (q0 & e0 & pre & x & post & [Hq He] & _ & -> & _ & _ & -> & _).
    apply Forall_app in Hq as [Hpre Hx]. apply Forall_cons in Hx as [Hx _].
    repeat (apply Forall_app; split); auto.
  - tauto.
Qed.

Lemma exhaustive_trace_invariant (max_depth : Z) :
  Forall Inv
    (Exhaustive.trace (Exhaustive.simulate_ntm ntm input_string max_depth)).
Proof.
  unfold Exhaustive.simulate_ntm.
  pose proof (ExhaustiveFacts.exhaustive_while_loop_rule ntm max_depth
                (fun q _ e => Forall Inv q /\ Forall Inv e)) as Hrule.
  assert (Hstep : forall queue steps explored,
             Forall Inv queue /\ Forall Inv explored -> queue <> [] ->
             (steps < max_depth)%Z ->
             Forall (fun c => Exhaustive.is_accept ntm c = false) queue ->
             Forall Inv (flat_map (Exhaustive.expand ntm) queue) /\
             Forall Inv (explored ++ queue)).
  { intros q s e [Hq He] _ _ _. split.
    - apply invariant_level; auto. intros x x'. unfold Exhaustive.expand.
      destruct (String.eqb (state x) (reject_state ntm)); [intros []|auto].
    - apply Forall_app. auto. }
  specialize (Hrule Hstep (Z.to_nat max_depth) [initial ntm input_string]
                0%Z [] ltac:(split; repeat constructor; exact Inv_initial)
                ltac:(lia)).
  destruct (Exhaustive.while_loop _ _ _ _ _ _) as [e st|q e st| |]; simpl;
    try constructor.
  - destruct Hrule as (q0 & e0 & pre & x & post & [Hq He] & _ & -> & _ & _ & ->).
    apply Forall_app in Hq as [Hpre Hx]. apply Forall_cons in Hx as [Hx _].
    repeat (apply Forall_app; split); auto.
  - tauto.
Qed.

End TraceInvariant.

(** X6: Every configuration in the trace of either variant is reached from the
    initial configuration by transitions of the machine, each applied where
    it matches: the search explores nothing the machine cannot do.  Its
    state is the start state or the [next_state] of a transition. *)
Theorem explored_configurations_are_reachable (ntm : Machine)
    (input_string : string) (max_depth : Z) (c : Configuration) :
  In c (Eager.trace (Eager.simulate_ntm ntm input_string max_depth)) \/
  In c (Exhaustive.trace
          (Exhaustive.simulate_ntm ntm input_string max_depth)) ->
  (exists n, reach_in ntm (initial ntm input_string) n c) /\
  (state c = start_state ntm \/
   exists t, In t (transitions ntm) /\ state c = next_state t).
Proof.
  set (Inv := fun c =>
    (exists n, reach_in ntm (initial ntm input_string) n c) /\
    (state c = start_state ntm \/
     exists t, In t (transitions ntm) /\ state c = next_state t)).
  assert (H0 : Inv (initial ntm input_string)).
  { split; [exists 0; constructor|left; reflexivity]. }
  assert (HS : forall c c', Inv c -> In c' (successors ntm c) -> Inv c').
  { intros x x' [[n Hn] _] Hx'.
    apply in_successors_inv in Hx' as (t & Hin & Hm & Hs). split.
    - exists (S n). eapply reach_in_S; eauto.
    - right. exists t. split; [exact Hin|].
      rewrite successor_step in Hs. injection Hs as <-.
      unfold step. destruct (String.eqb (move_direction t) "L"); reflexivity. }
  intros [H|H].
  - pose proof (eager_trace_invariant ntm input_string Inv H0 HS max_depth) as Hall.
    rewrite Forall_forall in Hall. apply Hall. now apply list_elem_of_In.
  - pose proof (exhaustive_trace_invariant ntm input_string Inv H0 HS max_depth)
      as Hall.
    rewrite Forall_forall in Hall. apply Hall. now apply list_elem_of_In.
Qed.

Lemma explored_configurations_are_reachable_witness :
  exists n, reach_in a_plus (initial a_plus "aaa") n
              (mkConfiguration "aa" "q1" "a__").
Proof.
  apply (explored_configurations_are_reachable a_plus "aaa" 50
           (mkConfiguration "aa" "q1" "a__")).
  right. simpl. auto.
Defined.

(** *** The tape is never rewritten *)

Lemma string_app_assoc (a b c : string) : (a +:+ b) +:+ c = a +:+ (b +:+ c).
Proof.
  induction a as [|x a IH]; [reflexivity|].
  change (String x ((a +:+ b) +:+ c) = String x (a +:+ (b +:+ c))).
  now rewrite IH.
Qed.

Lemma string_app_nil_r (a : string) : a +:+ "" = a.
Proof.
  induction a as [|x a IH]; [reflexivity|].
  change (String x (a +:+ "") = String x a). now rewrite IH.
Qed.

Lemma blanks_snoc (k : nat) : blanks k +:+ "_" = blanks (S k).
Proof.
  induction k as [|k IH]; [reflexivity|].
  change (String "_" (blanks k +:+ "_") = String "_" (blanks (S k))).
  now rewrite IH.
Qed.

(** One transition, in either direction, leaves the tape as it was and
    materialises one more blank at its right end. *)
Lemma step_keeps_tape (c : Configuration) (t : Transition) :
  left (step c t) +:+ right (step c t)
  = left c +:+ Py.or_blank (right c) +:+ "_".
Proof.
  unfold step.
  destruct (String.eqb (move_direction t) "L"); simpl;
    rewrite ?new_left_head, ?string_app_assoc; f_equal;
    unfold head_symbol, new_right;
    destruct (right c) as [|a [|b r]]; reflexivity.
Qed.

(** X7: The tape of every configuration in the trace of either variant is the
    input string followed by blanks: no transition ever changes a symbol of
    the tape, whatever its [write_symbol]. *)
Theorem tape_is_input_followed_by_blanks (ntm : Machine)
    (input_string : string) (max_depth : Z) (c : Configuration) :
  In c (Eager.trace (Eager.simulate_ntm ntm input_string max_depth)) \/
  In c (Exhaustive.trace
          (Exhaustive.simulate_ntm ntm input_string max_depth)) ->
  exists k, left c +:+ right c = input_string +:+ blanks k.
Proof.
  set (Inv := fun c => exists k, left c +:+ right c = input_string +:+ blanks k).
  assert (H0 : Inv (initial ntm input_string)).
  { exists 0. simpl. now rewrite string_app_nil_r. }
  assert (HS : forall c c', Inv c -> In c' (successors ntm c) -> Inv c').
  { intros x x' [k Hk] Hx'. unfold successors in Hx'.
    apply in_map_iff in Hx' as (t & <- & _).
    unfold Inv. rewrite step_keeps_tape.
    destruct (right x) as [|a r] eqn:Hr; simpl Py.or_blank.
    - rewrite string_app_nil_r in Hk. rewrite Hk. exists (S (S k)).
      rewrite string_app_assoc. f_equal.
      change "__" with ("_" +:+ "_").
      now rewrite <- string_app_assoc, !blanks_snoc.
    - rewrite <- string_app_assoc, Hk, string_app_assoc, blanks_snoc. eauto. }
  intros [H|H].
  - pose proof (eager_trace_invariant ntm input_string Inv H0 HS max_depth) as Hall.
    rewrite Forall_forall in Hall. apply Hall. now apply list_elem_of_In.
  - pose proof (exhaustive_trace_invariant ntm input_string Inv H0 HS max_depth)
      as Hall.
    rewrite Forall_forall in Hall. apply Hall. now apply list_elem_of_In.
Qed.

Lemma tape_is_input_followed_by_blanks_witness :
  exists k, "a" +:+ "_" = "a" +:+ blanks k.
Proof.
  apply (tape_is_input_followed_by_blanks rewriter "a" 2
           (mkConfiguration "a" "q1" "_")).
  left. simpl. auto.
Defined.

(** ** How the traces of different runs relate *)

Lemma eager_trace_exit (ntm : Machine) (input_string : string) (max_depth : Z) :
  Eager.trace (Eager.simulate_ntm ntm input_string max_depth)
  = Eager.exit_trace
      (Eager.while_loop ntm max_depth (Z.to_nat max_depth)
         [initial ntm input_string] 0%Z []).
Proof.
  unfold Eager.simulate_ntm.
  destruct (Eager.while_loop _ _ _ _ _ _); reflexivity.
Qed.

Lemma exhaustive_trace_exit (ntm : Machine) (input_string : string)
    (max_depth : Z) :
  Exhaustive.trace (Exhaustive.simulate_ntm ntm input_string max_depth)
  = Exhaustive.exit_trace
      (Exhaustive.while_loop ntm max_depth (Z.to_nat max_depth)
         [initial ntm input_string] 0%Z []).
Proof.
  unfold Exhaustive.simulate_ntm.
  destruct (Exhaustive.while_loop _ _ _ _ _ _); reflexivity.
Qed.

(** With enough fuel the loop is left in the ordinary way and its trace
    extends the one it started from. *)
Lemma eager_while_loop_grows (ntm : Machine) (max_depth : Z) (fuel : nat)
    (q : list Configuration) (s : Z) (e : list Configuration) :
  Z.to_nat (max_depth - s) <= fuel ->
  e `prefix_of` Eager.exit_trace (Eager.while_loop ntm max_depth fuel q s e).
Proof.
  intros Hfuel.
  pose proof (EagerFacts.eager_while_loop_rule ntm max_depth
                (fun _ _ x => e `prefix_of` x)) as Hrule.
  specialize (Hrule ltac:(cbv beta; intros; now apply prefix_app_r) fuel q s e
                ltac:(cbv beta; reflexivity) Hfuel).
  destruct (Eager.while_loop _ _ _ _ _ _) as [e' r s'|q' e' s'| |];
    try contradiction; simpl.
  - destruct Hrule as (q0 & e0 & pre & c & post & He0 & _ & _ & _ & _ & -> & _).
    now apply prefix_app_r.
  - tauto.
Qed.

Lemma exhaustive_while_loop_grows (ntm : Machine) (max_depth : Z) (fuel : nat)
    (q : list Configuration) (s : Z) (e : list Configuration) :
  Z.to_nat (max_depth - s) <= fuel ->
  e `prefix_of`
    Exhaustive.exit_trace (Exhaustive.while_loop ntm max_depth fuel q s e) /\
  Exhaustive.while_loop ntm max_depth fuel q s e <> Exhaustive.Raised /\
  Exhaustive.while_loop ntm max_depth fuel q s e <> Exhaustive.OutOfFuel.
Proof.
  intros Hfuel.
  pose proof (ExhaustiveFacts.exhaustive_while_loop_rule ntm max_depth
                (fun _ _ x => e `prefix_of` x)) as Hrule.
  specialize (Hrule ltac:(cbv beta; intros; now apply prefix_app_r) fuel q s e
                ltac:(cbv beta; reflexivity) Hfuel).
  destruct (Exhaustive.while_loop _ _ _ _ _ _) as [e' s'|q' e' s'| |];
    try contradiction; simpl; repeat split; try discriminate.
  - destruct Hrule as (q0 & e0 & pre & c & post & He0 & _ & _ & _ & _ & ->).
    now apply prefix_app_r.
  - tauto.
Qed.

(** Raising the depth bound only lets the loop go on from where the lower
    bound stopped it. *)
Lemma eager_while_loop_monotone (ntm : Machine) (d d' : Z) (fuel : nat) :
  (d <= d')%Z ->
  forall fuel' q s e,
    Z.to_nat (d - s) <= fuel -> Z.to_nat (d' - s) <= fuel' ->
    Eager.exit_trace (Eager.while_loop ntm d fuel q s e)
    `prefix_of` Eager.exit_trace (Eager.while_loop ntm d' fuel' q s e).
Proof.
  intros Hd. induction fuel as [|fuel IH]; intros fuel' q s e Hf Hf'.
  - rewrite (EagerFacts.eager_while_loop_unfold ntm d).
    destruct (Z.ltb_spec s d); [lia|]. rewrite andb_false_r. simpl.
    now apply eager_while_loop_grows.
  - rewrite (EagerFacts.eager_while_loop_unfold ntm d).
    destruct (negb (Nat.eqb (length q) 0)) eqn:Hq; simpl andb;
      [|simpl; now apply eager_while_loop_grows].
    destruct (Z.ltb_spec s d) as [Hlt|Hge];
      [|simpl; now apply eager_while_loop_grows].
    rewrite (EagerFacts.eager_while_loop_unfold ntm d'), Hq.
    destruct (Z.ltb_spec s d'); [|lia]. simpl andb.
    destruct fuel' as [|fuel']; [lia|].
    destruct (Eager.for_range ntm (length q) q e) as [q1 e1|e1 r|];
      [|reflexivity|reflexivity].
    apply IH; lia.
Qed.

Lemma exhaustive_while_loop_monotone (ntm : Machine) (d d' : Z) (fuel : nat) :
  (d <= d')%Z ->
  forall fuel' q s e,
    Z.to_nat (d - s) <= fuel -> Z.to_nat (d' - s) <= fuel' ->
    Exhaustive.exit_trace (Exhaustive.while_loop ntm d fuel q s e)
    `prefix_of`
    Exhaustive.exit_trace (Exhaustive.while_loop ntm d' fuel' q s e).
Proof.
  intros Hd. induction fuel as [|fuel IH]; intros fuel' q s e Hf Hf'.
  - rewrite (ExhaustiveFacts.exhaustive_while_loop_unfold ntm d).
    destruct (Z.ltb_spec s d); [lia|]. rewrite andb_false_r. simpl.
    now apply exhaustive_while_loop_grows.
  - rewrite (ExhaustiveFacts.exhaustive_while_loop_unfold ntm d).
    destruct (negb (Nat.eqb (length q) 0)) eqn:Hq; simpl andb;
      [|simpl; now apply exhaustive_while_loop_grows].
    destruct (Z.ltb_spec s d) as [Hlt|Hge];
      [|simpl; now apply exhaustive_while_loop_grows].
    rewrite (ExhaustiveFacts.exhaustive_while_loop_unfold ntm d'), Hq.
    destruct (Z.ltb_spec s d'); [|lia]. simpl andb.
    destruct fuel' as [|fuel']; [lia|].
    destruct (Exhaustive.for_range ntm (length q) q e) as [q1 e1|e1|];
      [|reflexivity|reflexivity].
    apply IH; lia.
Qed.

(** X8: Running again with a larger depth bound extends the trace: the trace
    under the smaller bound is a prefix of the trace under the larger one, in
    both variants. *)
Theorem larger_depth_bound_extends_trace (ntm : Machine)
    (input_string : string) (d d' : Z) :
  (d <= d')%Z ->
  Eager.trace (Eager.simulate_ntm ntm input_string d)
  `prefix_of` Eager.trace (Eager.simulate_ntm ntm input_string d') /\
  Exhaustive.trace (Exhaustive.simulate_ntm ntm input_string d)
  `prefix_of` Exhaustive.trace (Exhaustive.simulate_ntm ntm input_string d').
Proof.
  intros Hd. rewrite !eager_trace_exit, !exhaustive_trace_exit. split.
  - apply eager_while_loop_monotone; auto; lia.
  - apply exhaustive_while_loop_monotone; auto; lia.
Qed.

Lemma larger_depth_bound_extends_trace_witness :
  Eager.trace (Eager.simulate_ntm looper "a" 2)
  `prefix_of` Eager.trace (Eager.simulate_ntm looper "a" 3).
Proof.
  apply (larger_depth_bound_extends_trace looper "a" 2 3). lia.
Defined.

Lemma exhaustive_for_range_grows (ntm : Machine) (n : nat) :
  forall q e,
    match Exhaustive.for_range ntm n q e with
    | Exhaustive.IndexError => True
    | r => e `prefix_of` Exhaustive.level_trace r
    end.
Proof.
  induction n as [|n IH]; intros q e; simpl; [reflexivity|].
  destruct q as [|c q]; [exact I|].
  destruct (String.eqb (state c) (accept_state ntm));
    [simpl; now apply prefix_app_r|].
  assert (Hgo : forall q',
             match Exhaustive.for_range ntm n q' (e ++ [c]) with
             | Exhaustive.IndexError => True
             | r => e `prefix_of` Exhaustive.level_trace r
             end).
  { intros q'. specialize (IH q' (e ++ [c])).
    destruct (Exhaustive.for_range ntm n q' (e ++ [c])); auto;
      simpl in *; eapply prefix_app_l; exact IH. }
  destruct (String.eqb (state c) (reject_state ntm)); [apply Hgo|].
  rewrite for_transitions_spec. apply Hgo.
Qed.

(** One level in both variants: they agree until the eager variant meets a
    rejecting configuration, where it stops and the exhaustive one goes on. *)
Lemma eager_exhaustive_level (ntm : Machine) (n : nat) :
  forall q e,
    match Eager.for_range ntm n q e with
    | Eager.Next q' e' =>
        Exhaustive.for_range ntm n q e = Exhaustive.Next q' e'
    | Eager.Return e' r =>
        (r = "accept" /\
         Exhaustive.for_range ntm n q e = Exhaustive.Return e') \/
        (r = "reject" /\
         match Exhaustive.for_range ntm n q e with
         | Exhaustive.IndexError => True
         | x => e' `prefix_of` Exhaustive.level_trace x
         end)
    | Eager.IndexError => True
    end.
Proof.
  induction n as [|n IH]; intros q e; simpl; [reflexivity|].
  destruct q as [|c q]; [exact I|].
  destruct (String.eqb (state c) (accept_state ntm)); [left; auto|].
  destruct (String.eqb (state c) (reject_state ntm)).
  - right. split; [reflexivity|]. apply exhaustive_for_range_grows.
  - rewrite for_transitions_spec. apply IH.
Qed.

Lemma eager_exhaustive_loop (ntm : Machine) (d : Z) (fuel : nat) :
  forall q s e,
    Z.to_nat (d - s) <= fuel ->
    match Eager.while_loop ntm d fuel q s e with
    | Eager.Halted e' r s' =>
        (r = "accept" /\
         Exhaustive.while_loop ntm d fuel q s e = Exhaustive.Accepted e' s') \/
        (r = "reject" /\
         e' `prefix_of`
           Exhaustive.exit_trace (Exhaustive.while_loop ntm d fuel q s e))
    | Eager.Stopped q' e' s' =>
        Exhaustive.while_loop ntm d fuel q s e = Exhaustive.Stopped q' e' s'
    | _ => True
    end.
Proof.
  induction fuel as [|fuel IH]; intros q s e Hf;
    rewrite EagerFacts.eager_while_loop_unfold,
      ExhaustiveFacts.exhaustive_while_loop_unfold;
    destruct (negb (Nat.eqb (length q) 0) && (s <? d)%Z) eqn:Hc; auto.
  pose proof (eager_exhaustive_level ntm (length q) q e) as Hl.
  destruct (Eager.for_range ntm (length q) q e) as [q1 e1|e1 r|]; auto.
  - rewrite Hl. apply IH.
    apply andb_true_iff in Hc as [_ Hc]. apply Z.ltb_lt in Hc. lia.
  - destruct Hl as [[-> ->]|[-> Hl]]; [left; auto|]. right.
    split; [reflexivity|].
    destruct (ExhaustiveFacts.exhaustive_for_range_cases ntm q e)
      as [[_ Heq]|(pre & c & post & _ & _ & _ & Heq)];
      rewrite Heq in *; simpl in *; [|exact Hl].
    etransitivity; [exact Hl|].
    apply exhaustive_while_loop_grows.
    apply andb_true_iff in Hc as [_ Hc]. apply Z.ltb_lt in Hc. lia.
Qed.

(** X9: The two variants explore alike: on the same machine, input and depth
    bound the trace of the eager variant is a prefix of the trace of the
    exhaustive one, and unless the eager run ends in ["reject"] the traces
    are equal and the exhaustive variant prints the matching message. *)
Theorem eager_trace_is_prefix_of_exhaustive (ntm : Machine)
    (input_string : string) (max_depth : Z)
    (explored : list Configuration) (result : string) (steps : Z) :
  Eager.simulate_ntm ntm input_string max_depth
  = Eager.Returned explored result steps ->
  exists printed explored',
    Exhaustive.simulate_ntm ntm input_string max_depth
    = Exhaustive.Returned printed explored' /\
    explored `prefix_of` explored' /\
    (result = "accept" ->
     explored' = explored /\
     printed = Exhaustive.accepted_message steps) /\
    (result = "timed out" ->
     explored' = explored /\
     printed = Exhaustive.timeout_message steps).
Proof.
  unfold Eager.simulate_ntm, Exhaustive.simulate_ntm. intros H.
  pose proof (eager_exhaustive_loop ntm max_depth (Z.to_nat max_depth)
                [initial ntm input_string] 0%Z [] ltac:(lia)) as Hcmp.
  destruct (exhaustive_while_loop_grows ntm max_depth (Z.to_nat max_depth)
              [initial ntm input_string] 0%Z [] ltac:(lia))
    as (_ & Hraise & Hfuel).
  destruct (Eager.while_loop _ _ _ _ _ _) as [e r s|q e s| |];
    try discriminate; injection H as <- <- <-.
  - destruct Hcmp as [[-> Hx]|[-> Hx]].
    + rewrite Hx. eexists _, _. repeat split; auto; discriminate.
    + destruct (Exhaustive.while_loop _ _ _ _ _ _) as [e' s'|q' e' s'| |];
        try contradiction; simpl in Hx;
        eexists _, _; repeat split; eauto; discriminate.
  - rewrite Hcmp. eexists _, _. repeat split; auto; discriminate.
Qed.

Lemma eager_trace_is_prefix_of_exhaustive_witness :
  exists printed explored',
    Exhaustive.simulate_ntm a_plus "aaa" 50
    = Exhaustive.Returned printed explored' /\
    printed = Exhaustive.accepted_message 4.
Proof.
  destruct (eager_trace_is_prefix_of_exhaustive a_plus "aaa" 50
              [mkConfiguration "" "q0" "aaa"; mkConfiguration "a" "q1" "aa_";
               mkConfiguration "aa" "q1" "a__"; mkConfiguration "aaa" "q1" "___";
               mkConfiguration "aaa_" "qacc" "___"]
              "accept" 4 eq_refl)
    as (printed & explored' & Hrun & _ & Hacc & _).
  exists printed, explored'. split; [exact Hrun|]. now apply Hacc.
Defined.

(** ** The metrics on the traces of real runs *)

Lemma Qdiv_ge_1 (a b : Z) :
  (0 < b)%Z -> (b <= a)%Z -> (1 <= Qdiv (inject_Z a) (inject_Z b))%Q.
Proof.
  intros Hb Hab. apply Qle_shift_div_l.
  - change 0%Q with (inject_Z 0). now rewrite <- Zlt_Qlt.
  - rewrite Qmult_1_l. now rewrite <- Zle_Qle.
Qed.

Lemma length_remove_dups_le (l : list string) :
  length (remove_dups l) <= length l.
Proof.
  induction l as [|x l IH]; simpl; [lia|].
  destruct (decide_rel elem_of x l); simpl; lia.
Qed.

(** X10: The eager variant never counts more levels than it explored
    configurations, so the per-step metric of a run is at least 1 as soon as
    one level was processed, and 0 exactly when the run ended at level 0. *)
Theorem eager_metric_at_least_one (ntm : Machine) (input_string : string)
    (max_depth : Z) (explored : list Configuration) (result : string)
    (steps : Z) :
  Eager.simulate_ntm ntm input_string max_depth
  = Eager.Returned explored result steps ->
  (0 <= steps <= Z.of_nat (length explored))%Z /\
  ((0 < steps)%Z ->
   (1 <= Eager.calculate_nondeterminism explored steps)%Q) /\
  (steps = 0%Z -> Eager.calculate_nondeterminism explored steps = 0%Q).
Proof.
  unfold Eager.simulate_ntm. intros H.
  pose proof (EagerFacts.eager_while_loop_rule ntm max_depth
                (fun _ s e => (0 <= s <= Z.of_nat (length e))%Z)) as Hrule.
  assert (Hstep : forall queue st e,
             (0 <= st <= Z.of_nat (length e))%Z -> queue <> [] ->
             (st < max_depth)%Z ->
             Forall (fun c => Eager.is_terminal ntm c = false) queue ->
             (0 <= st + 1 <= Z.of_nat (length (e ++ queue)))%Z).
  { intros q st e Hs Hq _ _. rewrite length_app.
    destruct q; [contradiction|]. simpl. lia. }
  specialize (Hrule Hstep (Z.to_nat max_depth) [initial ntm input_string]
                0%Z [] ltac:(simpl; lia) ltac:(lia)).
  assert (Hs : (0 <= steps <= Z.of_nat (length explored))%Z).
  { destruct (Eager.while_loop _ _ _ _ _ _) as [e r s|q e s| |];
      try discriminate; injection H as <- <- <-.
    - destruct Hrule as (q0 & e0 & pre & c & post & He0 & _ & _ & _ & _ & -> & _).
      rewrite !length_app. lia.
    - tauto. }
  split; [exact Hs|]. unfold Eager.calculate_nondeterminism. split.
  - intros Hpos. destruct (Z.gtb_spec steps 0); [|lia].
    apply Qdiv_ge_1; lia.
  - intros ->. reflexivity.
Qed.

Lemma eager_metric_at_least_one_witness :
  (1 <= Eager.calculate_nondeterminism
          [mkConfiguration "" "q0" "a"; mkConfiguration "a" "q1" "_"] 2)%Q.
Proof.
  destruct (eager_metric_at_least_one rewriter "a" 2
              [mkConfiguration "" "q0" "a"; mkConfiguration "a" "q1" "_"]
              "timed out" 2 eq_refl) as (_ & Hge & _).
  apply Hge. reflexivity.
Defined.

(** X11: With a depth bound of 0 or less the exhaustive variant explores
    nothing; its metric then divides by zero, and [output_results] prints
    its first two lines and raises. *)
Theorem exhaustive_report_on_empty_trace (fmt : Q -> string) (ntm : Machine)
    (input_string : string) (max_depth : Z) :
  (max_depth <= 0)%Z ->
  Exhaustive.simulate_ntm ntm input_string max_depth
  = Exhaustive.Returned
      "Execution stopped after 0 steps (max depth reached)." [] /\
  Exhaustive.calculate_nondeterminism [] = None /\
  Exhaustive.output_results fmt [] ntm
  = Exhaustive.ZeroDivisionError
      ["NTM: " +:+ name ntm; "Total configurations explored: 0"].
Proof.
  intros Hd. repeat split.
  unfold Exhaustive.simulate_ntm.
  rewrite ExhaustiveFacts.exhaustive_while_loop_unfold.
  destruct (Z.ltb_spec 0 max_depth); [lia|]. rewrite andb_false_r.
  reflexivity.
Qed.

Lemma exhaustive_report_on_empty_trace_witness :
  Exhaustive.simulate_ntm a_plus "aaa" 0
  = Exhaustive.Returned
      "Execution stopped after 0 steps (max depth reached)." [].
Proof.
  apply (exhaustive_report_on_empty_trace (fun _ => "") a_plus "aaa" 0). lia.
Defined.

Lemma length_step_lines (i : nat) (explored : list Configuration) :
  length (step_lines i explored) = length explored.
Proof.
  revert i. induction explored as [|c e IH]; intros i; simpl; [reflexivity|].
  now rewrite IH.
Qed.

Lemma lookup_step_lines (explored : list Configuration) :
  forall i j c,
    explored !! j = Some c ->
    step_lines i explored !! j = Some (step_line (i + j) c).
Proof.
  induction explored as [|x e IH]; intros i j c H; [discriminate|].
  destruct j as [|j]; simpl in *.
  - injection H as <-. now rewrite Nat.add_0_r.
  - rewrite (IH (S i) j c H). f_equal. f_equal. lia.
Qed.

(** X12: With a positive depth bound the trace of the exhaustive variant starts
    with the initial configuration, so the metric is defined, and it is at
    least 1; [output_results] then prints three header lines and one line
    per configuration, the configuration at index [j] on the line numbered
    [j + 1]. *)
Theorem exhaustive_report_on_a_run (fmt : Q -> string) (ntm : Machine)
    (input_string : string) (max_depth : Z) :
  (0 < max_depth)%Z ->
  exists printed rest m,
    let explored := initial ntm input_string :: rest in
    Exhaustive.simulate_ntm ntm input_string max_depth
    = Exhaustive.Returned printed explored /\
    Exhaustive.calculate_nondeterminism explored = Some m /\
    (1 <= m)%Q /\
    Exhaustive.output_results fmt explored ntm
    = Exhaustive.Printed
        (["NTM: " +:+ name ntm;
          "Total configurations explored: "
            +:+ Py.str (Z.of_nat (length explored));
          "Degree of Nondeterminism: " +:+ fmt m]
         ++ step_lines 0 explored) /\
    (forall j c,
        explored !! j = Some c ->
        step_lines 0 explored !! j
        = Some ("Step " +:+ Py.str (Z.of_nat j + 1) +:+ ": " +:+ repr c)).
Proof.
  intros Hd.
  assert (Hrun : exists printed rest,
             Exhaustive.simulate_ntm ntm input_string max_depth
             = Exhaustive.Returned printed (initial ntm input_string :: rest)).
  { unfold Exhaustive.simulate_ntm.
    rewrite ExhaustiveFacts.exhaustive_while_loop_unfold.
    destruct (Z.ltb_spec 0 max_depth); [|lia].
    destruct (Z.to_nat max_depth) as [|fuel] eqn:Hf; [lia|].
    cbn [length Nat.eqb negb andb].
    change 1 with (length [initial ntm input_string]).
    destruct (ExhaustiveFacts.exhaustive_for_range_cases ntm
                [initial ntm input_string] [])
      as [[_ ->]|(pre & c & post & Hq & _ & _ & ->)].
    - destruct (exhaustive_while_loop_grows ntm max_depth fuel
                  (flat_map (Exhaustive.expand ntm) [initial ntm input_string])
                  (0 + 1)%Z ([] ++ [initial ntm input_string]) ltac:(lia))
        as ([k Hk] & Hr & Ho).
      destruct (Exhaustive.while_loop _ _ _ _ _ _) as [e s|q e s| |];
        try contradiction; simpl in Hk; subst e; simpl; eauto.
    - destruct pre as [|p pre].
      + injection Hq as <- _. simpl. eauto.
      + injection Hq as _ Hq. destruct pre; discriminate. }
  destruct Hrun as (printed & rest & Hrun).
  set (explored := initial ntm input_string :: rest).
  assert (Hpos : 0 < Exhaustive.distinct_states explored)
    by (apply distinct_states_pos; discriminate).
  assert (Hle : Exhaustive.distinct_states explored <= length explored).
  { unfold Exhaustive.distinct_states.
    etransitivity; [apply length_remove_dups_le|]. now rewrite length_map. }
  assert (Hm : Exhaustive.calculate_nondeterminism explored
               = Some (Qdiv (inject_Z (Z.of_nat (length explored)))
                         (inject_Z
                            (Z.of_nat (Exhaustive.distinct_states explored))))).
  { unfold Exhaustive.calculate_nondeterminism. rewrite size_state_set.
    destruct (Z.eqb_spec (Z.of_nat (Exhaustive.distinct_states explored)) 0);
      [lia|reflexivity]. }
  exists printed, rest, (Qdiv (inject_Z (Z.of_nat (length explored)))
                           (inject_Z
                              (Z.of_nat (Exhaustive.distinct_states explored)))).
  cbv zeta. fold explored. repeat split; auto.
  - apply Qdiv_ge_1; lia.
  - unfold Exhaustive.output_results. rewrite Hm. reflexivity.
  - intros j c Hj. rewrite (lookup_step_lines explored 0 j c Hj). reflexivity.
Qed.

Lemma exhaustive_report_on_a_run_witness :
  exists printed rest,
    Exhaustive.simulate_ntm a_plus "" 50
    = Exhaustive.Returned printed (initial a_plus "" :: rest).
Proof.
  destruct (exhaustive_report_on_a_run (fun _ => "") a_plus "" 50)
    as (printed & rest & m & Hrun & _); [lia|].
  exists printed, rest. exact Hrun.
Defined.

(** ** Deterministic machines *)

Lemma filter_none {A : Type} (p : A -> bool) (l : list A) :
  (forall x, In x l -> p x = false) -> List.filter p l = [].
Proof.
  induction l as [|x l IH]; intros H; simpl; [reflexivity|].
  rewrite (H x) by (left; reflexivity). apply IH. intros y Hy. apply H.
  now right.
Qed.

Lemma filter_same_key {A K : Type} (f : A -> K) (p : A -> bool) (k : K)
    (l : list A) :
  NoDup (map f l) -> (forall x, p x = true -> f x = k) ->
  length (List.filter p l) <= 1.
Proof.
  intros Hnd Hk. induction l as [|x l IH]; simpl; [lia|].
  simpl in Hnd. apply NoDup_cons in Hnd as [Hx Hnd].
  destruct (p x) eqn:Hpx; [|now apply IH].
  rewrite filter_none; [simpl; lia|].
  intros y Hy. destruct (p y) eqn:Hpy; [|reflexivity].
  exfalso. apply Hx. rewrite (Hk x Hpx), <- (Hk y Hpy).
  apply list_elem_of_In. now apply in_map.
Qed.

Lemma deterministic_out_degree (ntm : Machine) (c : Configuration) :
  deterministic ntm -> out_degree ntm c <= 1.
Proof.
  intros Hdet. unfold out_degree.
  apply (filter_same_key (fun t => (current_state t, input_symbol t))
           (matches c) (state c, head_symbol c)); [exact Hdet|].
  intros t Ht. apply matches_head in Ht as [-> ->]. reflexivity.
Qed.

(** X13: On a machine without two transitions for the same state and symbol the
    eager variant explores one configuration per level: a run that times out
    has explored as many configurations as it counts steps, a run that halts
    one more, and the per-step metric of a timed-out run is exactly 1. *)
Theorem deterministic_run_is_a_single_path (ntm : Machine)
    (input_string : string) (max_depth : Z)
    (explored : list Configuration) (result : string) (steps : Z) :
  deterministic ntm ->
  Eager.simulate_ntm ntm input_string max_depth
  = Eager.Returned explored result steps ->
  (result = "timed out" -> Z.of_nat (length explored) = steps) /\
  (result <> "timed out" -> Z.of_nat (length explored) = (steps + 1)%Z) /\
  (result = "timed out" -> (0 < steps)%Z ->
   (Eager.calculate_nondeterminism explored steps == 1)%Q).
Proof.
  intros Hdet. unfold Eager.simulate_ntm. intros H.
  pose proof (EagerFacts.eager_while_loop_rule ntm max_depth
                (fun q s e => length q <= 1 /\ Z.of_nat (length e) = s))
    as Hrule.
  assert (Hstep : forall queue st e,
             length queue <= 1 /\ Z.of_nat (length e) = st ->
             queue <> [] -> (st < max_depth)%Z ->
             Forall (fun c => Eager.is_terminal ntm c = false) queue ->
             length (flat_map (successors ntm) queue) <= 1 /\
             Z.of_nat (length (e ++ queue)) = (st + 1)%Z).
  { intros q st e [Hq He] Hne _ _.
    destruct q as [|c [|c' q]]; [contradiction| |simpl in Hq; lia].
    simpl. rewrite app_nil_r, length_successors, length_app. simpl.
    split; [now apply deterministic_out_degree|lia]. }
  specialize (Hrule Hstep (Z.to_nat max_depth) [initial ntm input_string]
                0%Z [] ltac:(simpl; split; [lia|reflexivity]) ltac:(lia)).
  assert (Hlen : (result = "timed out" /\ Z.of_nat (length explored) = steps) \/
                 (result <> "timed out" /\
                  Z.of_nat (length explored) = (steps + 1)%Z)).
  { destruct (Eager.while_loop _ _ _ _ _ _) as [e r s|q e s| |];
      try discriminate; injection H as <- <- <-.
    - destruct Hrule as (q0 & e0 & pre & c & post & [Hq He] & _ & -> & _ & _ & -> & ->).
      right. split.
      + unfold Eager.verdict.
        destruct (String.eqb (state c) (accept_state ntm)); discriminate.
      + destruct pre as [|p pre];
          [|simpl in Hq; rewrite length_app in Hq; simpl in Hq; lia].
        rewrite length_app. simpl. lia.
    - left. split; [reflexivity|tauto]. }
  destruct Hlen as [[Hr Hl]|[Hr Hl]]; repeat split; try tauto.
  intros _ Hpos. unfold Eager.calculate_nondeterminism.
  destruct (Z.gtb_spec steps 0); [|lia]. rewrite Hl.
  unfold Qdiv. apply Qmult_inv_r.
  intros Hz. unfold Qeq in Hz. simpl in Hz. lia.
Qed.

Lemma looper_deterministic : deterministic looper.
Proof.
  unfold deterministic. simpl. apply NoDup_cons. split.
  - intros Hin. apply list_elem_of_In in Hin. destruct Hin as [H|[]].
    discriminate.
  - apply NoDup_singleton.
Defined.

Lemma deterministic_run_is_a_single_path_witness :
  Z.of_nat
    (length [mkConfiguration "" "q0" "a"; mkConfiguration "a" "q0" "_";
             mkConfiguration "a_" "q0" "_"]) = 3%Z.
Proof.
  destruct (deterministic_run_is_a_single_path looper "a" 3
              [mkConfiguration "" "q0" "a"; mkConfiguration "a" "q0" "_";
               mkConfiguration "a_" "q0" "_"] "timed out" 3
              looper_deterministic eq_refl) as (Hlen & _).
  apply Hlen. reflexivity.
Defined.

(** ** The reports *)

Lemma written_lines (lines : list string) :
  written (map (fun line => line +:+ nl) lines) = printed_text lines.
Proof.
  induction lines as [|l lines IH]; [reflexivity|].
  change (written (map (fun line => line +:+ nl) (l :: lines)))
    with ((l +:+ nl) +:+ written (map (fun line => line +:+ nl) lines)).
  rewrite IH. apply string_app_assoc.
Qed.

Lemma written_app (xs ys : list string) :
  written (xs ++ ys) = written xs +:+ written ys.
Proof.
  induction xs as [|x xs IH]; [reflexivity|].
  change (written ((x :: xs) ++ ys)) with (x +:+ written (xs ++ ys)).
  rewrite IH. symmetry. apply string_app_assoc.
Qed.

Lemma printed_text_app (xs ys : list string) :
  printed_text (xs ++ ys) = printed_text xs +:+ printed_text ys.
Proof.
  induction xs as [|x xs IH]; [reflexivity|].
  change (printed_text ((x :: xs) ++ ys))
    with (x +:+ nl +:+ printed_text (xs ++ ys)).
  rewrite IH.
  change (printed_text (x :: xs)) with (x +:+ nl +:+ printed_text xs).
  now rewrite !string_app_assoc.
Qed.

(** X14: The eager variant's [output_results] writes to the file exactly the
    text it prints: a summary of seven lines, a blank line and the heading
    of the steps, then one line per explored configuration. *)
Theorem file_holds_what_is_printed (fmt : Q -> string) (ntm : Machine)
    (input_string : string) (explored : list Configuration)
    (result : string) (depth : Z) :
  fst (Eager.output_results fmt ntm input_string explored result depth)
  = snd (Eager.output_results fmt ntm input_string explored result depth) /\
  snd (Eager.output_results fmt ntm input_string explored result depth)
  = printed_text
      (["--- Simulation Summary ---";
        "Machine: " +:+ name ntm;
        "Input String: " +:+ input_string;
        "Result: " +:+ result;
        "Depth: " +:+ Py.str depth;
        "Configurations Explored: " +:+ Py.str (Z.of_nat (length explored));
        "Average Non-Determinism: "
          +:+ fmt (Eager.calculate_nondeterminism explored depth);
        ""; "Detailed Steps:"]
       ++ step_lines 0 explored).
Proof.
  unfold Eager.output_results. cbv zeta. cbn [fst snd].
  rewrite written_app, !printed_text_app, written_lines. split.
  - f_equal; cbn [written printed_text fold_right];
      rewrite ?string_app_assoc; reflexivity.
  - f_equal; cbn [printed_text fold_right]; unfold nl;
      rewrite ?string_app_assoc; reflexivity.
Qed.

(** *** Rendering a configuration *)

Lemma string_app_cons (x : ascii) (a b : string) :
  String x a +:+ b = String x (a +:+ b).
Proof. reflexivity. Qed.

Lemma string_app_nil_l (b : string) : "" +:+ b = b.
Proof. reflexivity. Qed.

Lemma split_at_comma (a a' b b' : string) :
  ~ In ","%char (symbols a) -> ~ In ","%char (symbols a') ->
  a +:+ String "," b = a' +:+ String "," b' -> a = a' /\ b = b'.
Proof.
  revert a'. induction a as [|x a IH]; intros [|y a'] Ha Ha' H.
  - injection H as ->. auto.
  - rewrite string_app_cons in H. injection H as <- _.
    exfalso. apply Ha'. left. reflexivity.
  - rewrite string_app_cons in H. injection H as -> _.
    exfalso. apply Ha. left. reflexivity.
  - rewrite !string_app_cons in H. injection H as <- H.
    destruct (IH a') as [-> ->]; auto.
    + intros Hin. apply Ha. now right.
    + intros Hin. apply Ha'. now right.
Qed.

Lemma snoc_inj (a b : string) (c : ascii) :
  a +:+ String c "" = b +:+ String c "" -> a = b.
Proof.
  revert b. induction a as [|x a IH]; intros [|y b] H.
  - reflexivity.
  - rewrite string_app_cons in H. injection H as _ H.
    symmetry in H. now apply not_empty_snoc in H.
  - rewrite string_app_cons in H. injection H as _ H.
    now apply not_empty_snoc in H.
  - rewrite !string_app_cons in H. injection H as <- H.
    f_equal. now apply IH.
Qed.

(** X15: [__repr__] tells configurations apart as long as no comma occurs in
    their [left] and [state]: two such configurations with the same rendering
    are equal.  With commas it does not: [("a, b", "c", "")] and
    [("a", "b, c", "")] are rendered alike. *)
Theorem repr_tells_configurations_apart :
  (forall c1 c2,
      ~ In ","%char (symbols (left c1)) ->
      ~ In ","%char (symbols (state c1)) ->
      ~ In ","%char (symbols (left c2)) ->
      ~ In ","%char (symbols (state c2)) ->
      repr c1 = repr c2 -> c1 = c2) /\
  repr (mkConfiguration "a, b" "c" "") = repr (mkConfiguration "a" "b, c" "").
Proof.
  split; [|reflexivity].
  intros [l1 s1 r1] [l2 s2 r2] Hl1 Hs1 Hl2 Hs2 H.
  unfold repr in H. cbn [left state right] in H.
  repeat (rewrite string_app_cons in H || rewrite string_app_nil_l in H).
  injection H as H.
  apply split_at_comma in H as [-> H]; auto.
  injection H as H.
  apply split_at_comma in H as [-> H]; auto.
  injection H as H.
  apply snoc_inj in H as ->. reflexivity.
Qed.

Lemma repr_tells_configurations_apart_witness :
  mkConfiguration "aa" "q1" "a_" = mkConfiguration "aa" "q1" "a_" /\
  repr (mkConfiguration "aa" "q1" "a_") = "(aa, q1, a_)".
Proof.
  destruct repr_tells_configurations_apart as [Hinj _]. split.
  - apply Hinj; try reflexivity;
      (intros H; simpl in H; repeat destruct H as [H|H]; try discriminate H;
       try contradiction).
  - reflexivity.
Defined.

(** ** Breadth-first order in the exhaustive variant *)

Lemma open_frontier_reach_in (ntm : Machine) (c0 c : Configuration) (n : nat) :
  In c (open_frontier ntm c0 n) <-> open_reach_in ntm c0 n c.
Proof.
  split.
  - revert c. induction n as [|n IH]; intros c H; simpl in H.
    + destruct H as [<-|[]]. constructor.
    + apply in_flat_map in H as (c1 & H1 & H).
      unfold Exhaustive.expand in H.
      destruct (String.eqb_spec (state c1) (reject_state ntm)) as [|Hne];
        [destruct H|].
      apply in_successors_inv in H as (t & Hin & Hm & Hs).
      eapply open_reach_in_S; eauto.
  - induction 1 as [|n c1 t c' _ IH Hne Hin Hm Hs]; simpl; [auto|].
    apply in_flat_map. exists c1. split; [exact IH|].
    unfold Exhaustive.expand.
    destruct (String.eqb_spec (state c1) (reject_state ntm));
      [contradiction|].
    eapply successor_in_successors; eauto.
Qed.

Lemma open_frontier_empty_later (ntm : Machine) (c0 : Configuration)
    (n m : nat) :
  open_frontier ntm c0 n = [] -> n <= m -> open_frontier ntm c0 m = [].
Proof.
  intros Hn Hle. induction Hle as [|m _ IH]; [exact Hn|].
  simpl. rewrite IH. reflexivity.
Qed.

Lemma in_open_levels_before (ntm : Machine) (c0 c : Configuration) (n : nat) :
  In c (open_levels_before ntm c0 n) <->
  exists k, k < n /\ In c (open_frontier ntm c0 k).
Proof.
  induction n as [|n IH]; simpl.
  - split; [intros []|intros (k & Hk & _); lia].
  - rewrite in_app_iff, IH. split.
    + intros [(k & Hk & H)|H]; [exists k|exists n]; split; auto; lia.
    + intros (k & Hk & H). destruct (Nat.eq_dec k n) as [->|Hne]; [auto|].
      left. exists k. split; [lia|exact H].
Qed.

Lemma exhaustive_level_through_live (ntm : Machine)
    (q e q' e' : list Configuration) :
  Exhaustive.for_range ntm (length q) q e = Exhaustive.Next q' e' ->
  Forall (fun c => Exhaustive.is_accept ntm c = false) q /\
  e' = e ++ q /\ q' = flat_map (Exhaustive.expand ntm) q.
Proof.
  intros H.
  destruct (ExhaustiveFacts.exhaustive_for_range_cases ntm q e)
    as [[Hall Heq]|(pre & c & post & _ & _ & _ & Heq)];
    rewrite Heq in H; [|discriminate].
  injection H as <- <-. auto.
Qed.

Lemma exhaustive_after_levels_frontier (ntm : Machine) (c0 : Configuration)
    (k : nat) :
  forall n q' e',
    Exhaustive.after_levels ntm k (open_frontier ntm c0 n)
      (open_levels_before ntm c0 n)
    = Exhaustive.Next q' e' ->
    Forall (fun c => Exhaustive.is_accept ntm c = false)
      (open_levels_before ntm c0 n) ->
    q' = open_frontier ntm c0 (n + k) /\
    e' = open_levels_before ntm c0 (n + k) /\
    Forall (fun c => Exhaustive.is_accept ntm c = false) e'.
Proof.
  induction k as [|k IH]; intros n q' e' H Hlive; simpl in H.
  - injection H as <- <-. rewrite Nat.add_0_r. auto.
  - destruct (Exhaustive.for_range ntm _ _ _) as [q1 e1| |] eqn:Hl;
      try discriminate.
    apply exhaustive_level_through_live in Hl as (Hq & -> & ->).
    replace (n + S k) with (S n + k) by lia.
    apply (IH (S n)); [exact H|]. simpl. apply Forall_app. auto.
Qed.

Lemma exhaustive_while_loop_exit (ntm : Machine) (max_depth : Z) (fuel : nat) :
  forall q s e,
    match Exhaustive.while_loop ntm max_depth fuel q s e with
    | Exhaustive.Stopped q' e' s' =>
        (s <= s')%Z /\ (q' = [] \/ (max_depth <= s')%Z) /\
        Exhaustive.after_levels ntm (Z.to_nat (s' - s)) q e
        = Exhaustive.Next q' e'
    | Exhaustive.Accepted e' s' =>
        (s <= s' < max_depth)%Z /\
        exists q1 e1,
          Exhaustive.after_levels ntm (Z.to_nat (s' - s)) q e
          = Exhaustive.Next q1 e1 /\
          Exhaustive.for_range ntm (length q1) q1 e1 = Exhaustive.Return e'
    | _ => True
    end.
Proof.
  induction fuel as [|fuel IH]; intros q s e;
    rewrite ExhaustiveFacts.exhaustive_while_loop_unfold.
  - destruct q as [|c q]; simpl.
    + rewrite Z.sub_diag. repeat split; auto; lia.
    + destruct (Z.ltb_spec s max_depth); [exact I|].
      rewrite Z.sub_diag. repeat split; auto; lia.
  - destruct q as [|c q]; [simpl; rewrite Z.sub_diag; repeat split; auto; lia|].
    destruct (Z.ltb_spec s max_depth) as [Hlt|Hge];
      [|simpl; rewrite Z.sub_diag; repeat split; auto; lia].
    cbn [length Nat.eqb negb andb].
    change (S (length q)) with (length (c :: q)).
    destruct (Exhaustive.for_range ntm (length (c :: q)) (c :: q) e)
      as [q1 e1|e1|] eqn:Hl; [| |exact I].
    + specialize (IH q1 (s + 1)%Z e1).
      destruct (Exhaustive.while_loop ntm max_depth fuel q1 (s + 1) e1)
        as [e' s'|q' e' s'| |]; auto.
      * destruct IH as (Hs & q2 & e2 & Hk & Hr). split; [lia|].
        exists q2, e2. split; [|exact Hr].
        replace (Z.to_nat (s' - s)) with (S (Z.to_nat (s' - (s + 1)))) by lia.
        cbn [Exhaustive.after_levels]. now rewrite Hl.
      * destruct IH as (Hs & Hend & Hk). repeat split; [lia|exact Hend|].
        replace (Z.to_nat (s' - s)) with (S (Z.to_nat (s' - (s + 1)))) by lia.
        cbn [Exhaustive.after_levels]. now rewrite Hl.
    + split; [lia|]. exists (c :: q), e. rewrite Z.sub_diag. auto.
Qed.

(** X16: When the exhaustive variant accepts, the accepting configuration is
    reached by exactly [steps] transitions along configurations that do not
    reject, the message names that number, and no accepting configuration is
    reached that way by fewer transitions. *)
Theorem exhaustive_accepts_at_shallowest (ntm : Machine)
    (input_string : string) (max_depth : Z)
    (explored : list Configuration) (steps : Z) :
  Exhaustive.while_loop ntm max_depth (Z.to_nat max_depth)
    [initial ntm input_string] 0%Z []
  = Exhaustive.Accepted explored steps ->
  Exhaustive.simulate_ntm ntm input_string max_depth
  = Exhaustive.Returned (Exhaustive.accepted_message steps) explored /\
  (exists before config,
      explored = before ++ [config] /\
      state config = accept_state ntm /\
      open_reach_in ntm (initial ntm input_string) (Z.to_nat steps) config) /\
  (forall n c,
      n < Z.to_nat steps ->
      open_reach_in ntm (initial ntm input_string) n c ->
      state c <> accept_state ntm).
Proof.
  intros H. set (c0 := initial ntm input_string) in *.
  pose proof (exhaustive_while_loop_exit ntm max_depth (Z.to_nat max_depth)
                [c0] 0%Z []) as Hexit.
  unfold Exhaustive.simulate_ntm. fold c0. rewrite H in *.
  split; [reflexivity|].
  destruct Hexit as (Hs & q1 & e1 & Hk & Hr). rewrite Z.sub_0_r in Hk.
  apply (exhaustive_after_levels_frontier ntm c0 (Z.to_nat steps) 0) in Hk
    as (-> & -> & Hlive); [|constructor].
  simpl in *.
  destruct (ExhaustiveFacts.exhaustive_for_range_cases ntm
              (open_frontier ntm c0 (Z.to_nat steps))
              (open_levels_before ntm c0 (Z.to_nat steps)))
    as [[_ Heq]|(pre & c & post & Hq & Hpre & Hc & Heq)];
    rewrite Heq in Hr; [discriminate|].
  injection Hr as <-. split.
  - exists (open_levels_before ntm c0 (Z.to_nat steps) ++ pre), c.
    rewrite <- app_assoc. repeat split.
    + now apply String.eqb_eq.
    + apply open_frontier_reach_in. rewrite Hq. apply in_app_iff.
      right. left. reflexivity.
  - intros n c' Hn Hreach. apply open_frontier_reach_in in Hreach.
    rewrite Forall_forall in Hlive.
    assert (Hc' : Exhaustive.is_accept ntm c' = false).
    { apply Hlive. apply list_elem_of_In. apply in_open_levels_before. eauto. }
    unfold Exhaustive.is_accept in Hc'. now apply String.eqb_neq.
Qed.

Lemma exhaustive_accepts_at_shallowest_witness :
  Exhaustive.simulate_ntm a_plus "aaa" 50
  = Exhaustive.Returned "String accepted in 4 steps!"
      [mkConfiguration "" "q0" "aaa"; mkConfiguration "a" "q1" "aa_";
       mkConfiguration "aa" "q1" "a__"; mkConfiguration "aaa" "q1" "___";
       mkConfiguration "aaa_" "qacc" "___"].
Proof.
  apply (exhaustive_accepts_at_shallowest a_plus "aaa" 50
           [mkConfiguration "" "q0" "aaa"; mkConfiguration "a" "q1" "aa_";
            mkConfiguration "aa" "q1" "a__"; mkConfiguration "aaa" "q1" "___";
            mkConfiguration "aaa_" "qacc" "___"] 4).
  reflexivity.
Defined.

(** X17: When the loop of the exhaustive variant is left with an empty queue,
    the trace holds every configuration the machine reaches without passing
    through a rejecting one, and none of them accepts: the machine does not
    accept the input, however large the depth bound. *)
Theorem exhaustive_empty_frontier_is_complete (ntm : Machine)
    (input_string : string) (max_depth : Z)
    (explored : list Configuration) (steps : Z) :
  Exhaustive.while_loop ntm max_depth (Z.to_nat max_depth)
    [initial ntm input_string] 0%Z []
  = Exhaustive.Stopped [] explored steps ->
  Exhaustive.simulate_ntm ntm input_string max_depth
  = Exhaustive.Returned (Exhaustive.timeout_message steps) explored /\
  (forall n c,
      open_reach_in ntm (initial ntm input_string) n c ->
      n < Z.to_nat steps /\ In c explored /\ state c <> accept_state ntm).
Proof.
  intros H. set (c0 := initial ntm input_string) in *.
  pose proof (exhaustive_while_loop_exit ntm max_depth (Z.to_nat max_depth)
                [c0] 0%Z []) as Hexit.
  unfold Exhaustive.simulate_ntm. fold c0. rewrite H in *.
  split; [reflexivity|].
  destruct Hexit as (Hs & _ & Hk). rewrite Z.sub_0_r in Hk.
  apply (exhaustive_after_levels_frontier ntm c0 (Z.to_nat steps) 0) in Hk
    as (Hnil & -> & Hlive); [|constructor].
  simpl in *. symmetry in Hnil.
  intros n c Hreach. apply open_frontier_reach_in in Hreach.
  assert (Hn : n < Z.to_nat steps).
  { destruct (Nat.lt_ge_cases n (Z.to_nat steps)) as [|Hge]; [assumption|].
    rewrite (open_frontier_empty_later _ _ _ _ Hnil Hge) in Hreach.
    destruct Hreach. }
  assert (Hin : In c (open_levels_before ntm c0 (Z.to_nat steps)))
    by (apply in_open_levels_before; eauto).
  repeat split; auto.
  rewrite Forall_forall in Hlive.
  assert (Hc : Exhaustive.is_accept ntm c = false)
    by (apply Hlive; now apply list_elem_of_In).
  unfold Exhaustive.is_accept in Hc. now apply String.eqb_neq.
Qed.

Lemma exhaustive_empty_frontier_is_complete_witness :
  Exhaustive.simulate_ntm a_plus "" 50
  = Exhaustive.Returned "Execution stopped after 2 steps (max depth reached)."
      [mkConfiguration "" "q0" ""; mkConfiguration "_" "qrej" "_"].
Proof.
  apply (exhaustive_empty_frontier_is_complete a_plus "" 50
           [mkConfiguration "" "q0" ""; mkConfiguration "_" "qrej" "_"] 2).
  reflexivity.
Defined.
